(** * The [resize] postprocessor of the accuracy checker

    A shallow embedding of
    [tools/accuracy_checker/accuracy_checker/postprocessor/resize.py]:
    the size policy [set_sizes], the per-class resampling [resize] and the
    driver [process_image], over a store of representation objects.

    Representation objects are Python objects that the postprocessor mutates
    through references.  The embedding keeps that: annotations and
    predictions are lists of references into a store, and every pass is a
    store transformer that may raise. *)

From Stdlib Require Import ZArith List Lia Bool.
From stdpp Require Import base option list gmap strings.

Open Scope Z_scope.

(** ** numpy arrays *)

Module Np.

(** The element types the postprocessor meets.  [float64] is what
    [np.array([])] produces. *)
Inductive dtype := bool_ | uint8 | int32 | int64 | float32 | float64.

#[global] Instance dtype_eq_dec : EqDecision dtype.
Proof. solve_decision. Defined.

(** An array is its element type, its shape and its elements in row-major
    order.  Elements are integers: masks hold labels and images hold
    samples.  An array of a floating type is covered as far as its samples
    are whole numbers; fractional samples are outside this embedding. *)
Record ndarray := mk_ndarray {
  dtype_of : dtype;
  shape : list nat;
  data : list Z
}.

#[global] Instance ndarray_eq_dec : EqDecision ndarray.
Proof. solve_decision. Defined.

Definition size_of (s : list nat) : nat := foldr Nat.mul 1%nat s.

(** The number of elements agrees with the shape. *)
Definition wf (a : ndarray) : Prop := length (data a) = size_of (shape a).

(** [len(a.shape)] *)
Definition ndim (a : ndarray) : nat := length (shape a).

(** [a.shape[i]], an [IndexError] when the axis does not exist. *)
Definition shape_at (a : ndarray) (i : nat) : option Z :=
  Z.of_nat <$> shape a !! i.

(** The element types that hold integers. *)
Definition integer_dtype (d : dtype) : bool :=
  match d with
  | float32 | float64 => false
  | _ => true
  end.

(** What the conversion of the platform makes of a floating sample that
    does not fit eight bits.  The language leaves it open, so it is a
    parameter; only its low eight bits are looked at. *)
Class FloatCast := float_to_uint8 : Z → Z.

(** The cast of one sample to [np.uint8].  From an integer type it keeps
    the low eight bits; from a floating type a whole number of the 8-bit
    range is kept, and anything else is up to the platform. *)
Definition cast_uint8 {platform : FloatCast} (d : dtype) (z : Z) : Z :=
  if integer_dtype d then z mod 256
  else if bool_decide (0 <= z < 256) then z
  else float_to_uint8 z mod 256.

(** [a.astype(np.uint8)] *)
Definition astype_uint8 {platform : FloatCast} (a : ndarray) : ndarray :=
  {| dtype_of := uint8; shape := shape a;
     data := cast_uint8 (dtype_of a) <$> data a |}.

(** [n] consecutive blocks of [k] elements. *)
Fixpoint blocks (n k : nat) (l : list Z) : list (list Z) :=
  match n with
  | O => []
  | S n' => take k l :: blocks n' k (drop k l)
  end.

(** [for sub in a]: the sub-arrays along the first axis.  Iterating over a
    0-d array is a [TypeError]. *)
Definition iter (a : ndarray) : option (list ndarray) :=
  match shape a with
  | [] => None
  | n :: rest =>
      Some (mk_ndarray (dtype_of a) rest <$> blocks n (size_of rest) (data a))
  end.

(** numpy's type promotion on the element types above. *)
Definition promote (a b : dtype) : dtype :=
  match a, b with
  | bool_, x | x, bool_ => x
  | float64, _ | _, float64 => float64
  | uint8, x | x, uint8 => x
  | float32, float32 => float32
  | float32, _ | _, float32 => float64
  | int64, _ | _, int64 => int64
  | int32, int32 => int32
  end.

(** [np.array(arrays)] on a list of arrays: the empty list gives the empty
    1-d array of floats, arrays of one common shape are stacked along a
    new first axis, and arrays of different shapes are a [ValueError]. *)
Definition array (l : list ndarray) : option ndarray :=
  match l with
  | [] => Some (mk_ndarray float64 [0%nat] [])
  | a :: rest =>
      if forallb (fun b => bool_decide (shape b = shape a)) rest
      then Some {| dtype_of := foldl promote (dtype_of a) (dtype_of <$> rest);
                   shape := length l :: shape a;
                   data := concat (data <$> l) |}
      else None
  end.

End Np.

(** ** Representations and configuration *)

(** The classes [resize.py] imports from [..representation]. *)
Inductive imported_class :=
  | StyleTransferAnnotation | StyleTransferPrediction
  | SuperResolutionAnnotation | SuperResolutionPrediction
  | ImageProcessingAnnotation | ImageProcessingPrediction
  | ImageInpaintingAnnotation | ImageInpaintingPrediction
  | SegmentationAnnotation | SegmentationPrediction.

#[global] Instance imported_class_eq_dec : EqDecision imported_class.
Proof. solve_decision. Defined.

(** The class of an entry: one of the imported classes, or any other
    class, given by its name and by the imported classes among its
    ancestors in the order of its [__mro__] (none for a class that derives
    from no imported class). *)
Inductive repr_class :=
  | Imported (c : imported_class)
  | OtherRepresentation (name : string) (ancestors : list imported_class).

Coercion Imported : imported_class >-> repr_class.

#[global] Instance repr_class_eq_dec : EqDecision repr_class.
Proof. solve_decision. Defined.

(** The imported classes of [cls.__mro__], nearest first.  An imported
    class stands first in its own, which decides every dispatch of
    [resize]; for [set_sizes], an imported class without a registration is
    taken not to derive from one that has a registration. *)
Definition mro (c : repr_class) : list imported_class :=
  match c with
  | Imported c => [c]
  | OtherRepresentation _ ancestors => ancestors
  end.

(** [functools.singledispatch]: a call goes to the function registered for
    the nearest class of the [__mro__] that has one, and to the undecorated
    function when no class has. *)
Definition dispatch {F : Type} (registry : imported_class → option F)
    (undecorated : F) (c : repr_class) : F :=
  default undecorated (head (omap registry (mro c))).

(** A representation object: its class, its identifier and its array, which
    is the attribute [value] of the dense classes and the attribute [mask]
    of the two segmentation classes. *)
Record entry := mk_entry {
  cls : repr_class;
  identifier : string;
  payload : Np.ndarray
}.

#[global] Instance entry_eq_dec : EqDecision entry.
Proof. solve_decision. Defined.

(** [entry.value = a] and [entry.mask = a] *)
Definition set_payload (e : entry) (a : Np.ndarray) : entry :=
  {| cls := cls e; identifier := identifier e; payload := a |}.

(** [ApplyToOption] of [..postprocessor.postprocessor]. *)
Inductive ApplyToOption := ANNOTATION | PREDICTION | ALL.

#[global] Instance ApplyToOption_eq_dec : EqDecision ApplyToOption.
Proof. solve_decision. Defined.

(** The attributes of a configured [Resize] object that [process_image]
    reads.  [dst_height] and [dst_width] are [None] when not configured;
    [apply_to] is [None] when unset. *)
Record Resize := mk_Resize {
  dst_height : option Z;
  dst_width : option Z;
  image_size : list Z;
  _deprocess_predictions : bool;
  apply_to : option ApplyToOption
}.

(** The declared parameters are [NumberField(value_type=int, optional=True,
    min_value=1)]: a configured size is at least 1. *)
Definition configured (dst : option Z) : Prop :=
  match dst with Some v => 1 <= v | None => True end.

(** Truth value of an optional integer in a conditional expression. *)
Definition truthy (o : option Z) : bool :=
  match o with
  | Some z => negb (z =? 0)
  | None => false
  end.

(** [height, width = t] for a sequence [t]. *)
Definition unpack2 (t : list Z) : option (Z * Z) :=
  match t with
  | [height; width] => Some (height, width)
  | _ => None
  end.

(** ** Size policy *)

(** The functions [set_sizes] is made of, and its registrations. *)
Inductive set_sizes_function :=
  | SizesUndecorated | SizesSuperResolution | SizesSegmentationPrediction.

Definition set_sizes_register (c : imported_class)
    : option set_sizes_function :=
  match c with
  | SuperResolutionAnnotation | SuperResolutionPrediction =>
      Some SizesSuperResolution
  | SegmentationPrediction => Some SizesSegmentationPrediction
  | _ => None
  end.

Section SetSizes.

Variable self : Resize.

(** [x if x else fallback]: the fallback is evaluated only when needed. *)
Definition if_else (x : option Z) (fallback : option Z) : option Z :=
  if truthy x then x else fallback.

(** The undecorated [set_sizes]. *)
Definition set_sizes_default : option (Z * Z) :=
  height ← if_else (dst_height self) (image_size self !! 0%nat);
  width ← if_else (dst_width self) (image_size self !! 1%nat);
  Some (height, width).

(** [set_sizes] registered for the two super-resolution classes. *)
Definition set_sizes_super_resolution (e : entry) : option (Z * Z) :=
  height ← if_else (dst_height self) (Np.shape_at (payload e) 0);
  width ← if_else (dst_width self) (Np.shape_at (payload e) 1);
  Some (height, width).

(** [set_sizes] registered for [SegmentationPrediction];
    [self.image_size[:2]] is unpacked by the caller. *)
Definition set_sizes_segmentation_prediction : option (Z * Z) :=
  if _deprocess_predictions self then unpack2 (take 2 (image_size self))
  else
    height ← if_else (dst_height self) (image_size self !! 0%nat);
    width ← if_else (dst_width self) (image_size self !! 1%nat);
    Some (height, width).

(** [set_sizes] with its registrations; the undecorated function serves
    every class that neither is nor derives from a registered one. *)
Definition set_sizes (e : entry) : option (Z * Z) :=
  match dispatch set_sizes_register SizesUndecorated (cls e) with
  | SizesSuperResolution => set_sizes_super_resolution e
  | SizesSegmentationPrediction => set_sizes_segmentation_prediction
  | SizesUndecorated => set_sizes_default
  end.

(** The entries the undecorated rule decides: those of every class that
    does not dispatch to the super-resolution registration, and those that
    dispatch to the registration of [SegmentationPrediction] unless
    predictions are being deprocessed. *)
Definition default_rule (e : entry) : bool :=
  match dispatch set_sizes_register SizesUndecorated (cls e) with
  | SizesSuperResolution => false
  | SizesSegmentationPrediction => negb (_deprocess_predictions self)
  | SizesUndecorated => true
  end.

End SetSizes.

(** ** Resampling *)

(** The resampling filters of [PIL.Image]. *)
Inductive Resampling := NEAREST | BOX | BILINEAR | HAMMING | BICUBIC | LANCZOS.

(** The functions [resize] is made of, and its registrations. *)
Inductive resize_function :=
  | ResizeUndecorated | ResizeDense
  | ResizeSegmentationPrediction | ResizeSegmentationAnnotation.

Definition resize_register (c : imported_class) : option resize_function :=
  match c with
  | StyleTransferAnnotation | StyleTransferPrediction
  | SuperResolutionAnnotation | SuperResolutionPrediction
  | ImageProcessingAnnotation | ImageProcessingPrediction
  | ImageInpaintingAnnotation | ImageInpaintingPrediction =>
      Some ResizeDense
  | SegmentationPrediction => Some ResizeSegmentationPrediction
  | SegmentationAnnotation => Some ResizeSegmentationAnnotation
  end.

(** The classes registered on the dense branch of [resize]. *)
Definition dense_class (c : repr_class) : bool :=
  match c with
  | Imported c =>
      match resize_register c with
      | Some ResizeDense => true
      | _ => false
      end
  | OtherRepresentation _ _ => false
  end.

(** The classes [resize] has a registration for: the registered classes
    and the classes that derive from one. *)
Definition registered (c : repr_class) : bool :=
  match dispatch resize_register ResizeUndecorated c with
  | ResizeUndecorated => false
  | _ => true
  end.

(** ** The collaborators

    [process_image] calls two libraries that are not part of this file:
    [ResizeSegmentationMask.segm_resize(mask, width, height)], and PIL by
    the three calls [Image.fromarray], [Image.resize] and [np.array] of an
    image.  Each call may raise.  The cast to [np.uint8] runs on the
    platform's conversion of floating samples. *)
Class Collaborators := {
  float_cast :: Np.FloatCast;
  segm_resize : Np.ndarray → Z → Z → option Np.ndarray;
  Image : Type;
  Image_fromarray : Np.ndarray → option Image;
  Image_resize : Image → Z * Z → Resampling → option Image;
  np_array_of_image : Image → Np.ndarray
}.

(** ** The collaborators' contracts, and instances of them *)

Module Contract.

(** Modelled from the spec: the contract of
    [ResizeSegmentationMask.segm_resize], whose code is outside this file.
    On a 2-d mask and a positive target it returns an array of shape
    (target height, target width). *)
Definition segm_resize_ok {lib : Collaborators} : Prop :=
  ∀ mask width height H W,
    Np.wf mask → Np.shape mask = [H; W] → 0 < width → 0 < height →
    ∃ mask', segm_resize mask width height = Some mask' ∧
             Np.wf mask' ∧
             Np.shape mask' = [Z.to_nat height; Z.to_nat width].

(** Modelled from the spec: the contract of the image resampling primitive
    (PIL) on 8-bit buffers of [C] channels.  Converting the buffer to an
    image, resizing it to the size (width, height) with the bicubic filter
    and converting back succeeds and gives an 8-bit array of shape
    (height, width, C). *)
Definition resample_ok {lib : Collaborators} (C : nat) : Prop :=
  ∀ a width height H W,
    Np.wf a → Np.dtype_of a = Np.uint8 → Np.shape a = [H; W; C] →
    0 < width → 0 < height →
    ∃ im im', Image_fromarray a = Some im ∧
              Image_resize im (width, height) BICUBIC = Some im' ∧
              Np.wf (np_array_of_image im') ∧
              Np.dtype_of (np_array_of_image im') = Np.uint8 ∧
              Np.shape (np_array_of_image im') =
                [Z.to_nat height; Z.to_nat width; C].

End Contract.

(** Instances of the two collaborators by nearest-neighbour sampling.  They
    serve to run the development on concrete stores. *)
Module Nearest.

(** The samples of an [H] × [W] grid of [k]-element pixels at the
    [height] × [width] target positions, in row-major order. *)
Definition sample (H W k : nat) (l : list Z) (height width : nat)
    : list Z :=
  flat_map (λ i,
    flat_map (λ j,
      map (λ t, nth (((i * H / height) * W + j * W / width) * k + t)%nat l 0)
          (seq 0 k))
      (seq 0 width))
    (seq 0 height).

(** Modelled from the spec: [segm_resize(mask, target_width,
    target_height)] takes a 2-d mask to a (target height, target width)
    mask whose labels all occur in the input.  Other ranks and empty
    targets are refused. *)
Definition segm_resize (mask : Np.ndarray) (width height : Z)
    : option Np.ndarray :=
  match Np.shape mask with
  | [H; W] =>
      if bool_decide (0 < width ∧ 0 < height) then
        Some {| Np.dtype_of := Np.dtype_of mask;
                Np.shape := [Z.to_nat height; Z.to_nat width];
                Np.data := sample H W 1 (Np.data mask)
                             (Z.to_nat height) (Z.to_nat width) |}
      else None
  | _ => None
  end.

(** Modelled from the spec: the image resampling primitive, which the
    source takes from PIL.  An image is kept as its 8-bit
    height × width × bands buffer; only such buffers convert, only positive
    sizes are accepted, and the samples are picked nearest-neighbour
    whatever filter is asked for. *)
Definition Image : Type := Np.ndarray.

Definition Image_fromarray (a : Np.ndarray) : option Image :=
  match Np.shape a with
  | [_; _; _] =>
      if bool_decide (Np.dtype_of a = Np.uint8) then Some a else None
  | _ => None
  end.

Definition Image_resize (im : Image) (size : Z * Z) (resample : Resampling)
    : option Image :=
  match Np.shape im with
  | [H; W; C] =>
      if bool_decide (0 < size.1 ∧ 0 < size.2) then
        Some {| Np.dtype_of := Np.dtype_of im;
                Np.shape := [Z.to_nat size.2; Z.to_nat size.1; C];
                Np.data := sample H W C (Np.data im)
                             (Z.to_nat size.2) (Z.to_nat size.1) |}
      else None
  | _ => None
  end.

Definition np_array_of_image (im : Image) : Np.ndarray := im.

(** A platform that turns a floating sample outside the 8-bit range
    into 0. *)
Definition float_to_uint8 : Np.FloatCast := λ _, 0.

Definition collaborators : Collaborators :=
  Build_Collaborators float_to_uint8 segm_resize Image Image_fromarray
    Image_resize np_array_of_image.

End Nearest.

Abbreviation ref := nat (only parsing).
Abbreviation store := (gmap nat entry) (only parsing).

Section Resize.

Context {lib : Collaborators}.

Variable self : Resize.

(** The dense branch. *)
Definition resize_dense (e : entry) (height width : Z) : option entry :=
  let e := set_payload e (Np.astype_uint8 (payload e)) in
  data ← Image_fromarray (payload e);
  data ← Image_resize data (width, height) BICUBIC;
  Some (set_payload e (np_array_of_image data)).

(** The branch of [SegmentationPrediction]. *)
Definition resize_segmentation_prediction
    (e : entry) (height width : Z) : option entry :=
  if bool_decide (Np.ndim (payload e) = 2%nat) then
    mask ← segm_resize (payload e) width height;
    Some (set_payload e mask)
  else
    class_masks ← Np.iter (payload e);
    entry_mask ← mapM (λ class_mask, segm_resize class_mask width height)
                      class_masks;
    mask ← Np.array entry_mask;
    Some (set_payload e mask).

(** The branch of [SegmentationAnnotation]. *)
Definition resize_segmentation_annotation
    (e : entry) (height width : Z) : option entry :=
  mask ← segm_resize (payload e) width height;
  Some (set_payload e mask).

(** [resize] with its registrations; the undecorated function, which
    returns the entry, serves every class that neither is nor derives from
    a registered one. *)
Definition resize (e : entry) (height width : Z) : option entry :=
  match dispatch resize_register ResizeUndecorated (cls e) with
  | ResizeDense => resize_dense e height width
  | ResizeSegmentationPrediction =>
      resize_segmentation_prediction e height width
  | ResizeSegmentationAnnotation =>
      resize_segmentation_annotation e height width
  | ResizeUndecorated => Some e
  end.

(** ** The driver *)

(** [set_sizes] and [resize] on objects of the store.  [resize] writes the
    object behind the reference it is given and no other. *)
Definition set_sizes_at (r : ref) (σ : store) : option (Z * Z) :=
  e ← σ !! r; set_sizes self e.

Definition resize_at (r : ref) (height width : Z) (σ : store)
    : option store :=
  e ← σ !! r;
  e' ← resize e height width;
  Some (<[r := e']> σ).

(** A [for] loop over [l] whose body updates the store and may raise. *)
Fixpoint for_each {A} (body : A → store → option store)
    (l : list A) (σ : store) : option store :=
  match l with
  | [] => Some σ
  | x :: l' => σ' ← body x σ; for_each body l' σ'
  end.

(** The two statements every loop body is made of: resolve the size from
    the object [src], then resize the object [tgt].
    [height, width = set_sizes(src); resize(tgt, height, width)] *)
Definition resize_with (src tgt : ref) (σ : store) : option store :=
  '(height, width) ← set_sizes_at src σ;
  resize_at tgt height width σ.

(** Body of the loop over [zip(annotations, predictions)].  A
    representation object is truthy, so [annotation or prediction] is the
    annotation unless it is [None]. *)
Definition paired_body (ap : option ref * ref) (σ : store) : option store :=
  resize_with (default ap.2 ap.1) ap.2 σ.

(** Body of the loop over [predictions] alone. *)
Definition single_body (prediction : ref) (σ : store) : option store :=
  resize_with prediction prediction σ.

(** Body of the loop over [annotations]; [None] takes the [continue]. *)
Definition annotation_body (annotation : option ref) (σ : store)
    : option store :=
  match annotation with
  | None => Some σ
  | Some r => resize_with r r σ
  end.

Definition prediction_pass (annotations : list (option ref))
    (predictions : list ref) (σ : store) : option store :=
  if bool_decide (annotations ≠ []) then
    for_each paired_body (zip annotations predictions) σ
  else
    for_each single_body predictions σ.

Definition annotation_pass (annotations : list (option ref)) (σ : store)
    : option store :=
  for_each annotation_body annotations σ.

(** [self.apply_to is None or self.apply_to in targets] *)
Definition applies (targets : list ApplyToOption) : bool :=
  match apply_to self with
  | None => true
  | Some a => bool_decide (a ∈ targets)
  end.

(** [process_image] returns the two collections it was given; the store
    carries what it did to the objects. *)
Definition process_image (annotations : list (option ref))
    (predictions : list ref) (σ : store)
    : option (list (option ref) * list ref * store) :=
  σ ← (if applies [PREDICTION; ALL]
       then prediction_pass annotations predictions σ else Some σ);
  σ ← (if applies [ANNOTATION; ALL]
       then annotation_pass annotations σ else Some σ);
  Some (annotations, predictions, σ).

(** What one run of the two statements does to the object [tgt], as read
    off two stores: the size came from [src] as it was in [σ], and [tgt]
    in [σ'] is [tgt] of [σ] resized to it. *)
Definition resolved_from (σ σ' : store) (src tgt : ref) : Prop :=
  ∃ es et height width et',
    σ !! src = Some es ∧ σ !! tgt = Some et ∧
    set_sizes self es = Some (height, width) ∧
    resize et height width = Some et' ∧
    σ' !! tgt = Some et'.

End Resize.

(** The driver over the nearest-neighbour instances. *)
Definition process_image_nearest := @process_image Nearest.collaborators.

Definition resize_nearest := @resize Nearest.collaborators.

(** ** The class attributes and the declared parameters *)

(** [Resize.prediction_types] and [Resize.annotation_types], as the class
    body lists them. *)
Definition prediction_types : list repr_class :=
  Imported <$>
    [StyleTransferPrediction; ImageProcessingPrediction;
     SegmentationPrediction; SuperResolutionPrediction;
     ImageInpaintingPrediction].

Definition annotation_types : list repr_class :=
  Imported <$>
    [StyleTransferAnnotation; ImageProcessingAnnotation;
     SegmentationAnnotation; SuperResolutionAnnotation;
     ImageInpaintingPrediction].

(** The arguments [parameters] gives to [NumberField]. *)
Inductive value_type := int_type | float_type.

Record NumberField := mk_NumberField {
  field_type : value_type;
  optional : bool;
  min_value : option Z;
  description : string
}.

(** A declared parameter: one of the number fields of this class, or a
    field of some other kind declared by a base class. *)
Inductive Field :=
  | Number (f : NumberField)
  | Inherited (kind : string).

(** [Resize.parameters]: the parameters of the base class, updated with the
    three sizes in the order of the dictionary display. *)
Definition parameters (super_parameters : gmap string Field)
    : gmap string Field :=
  <["size" :=
      Number (mk_NumberField int_type true (Some 1)
        "Destination size for resize for both dimensions (height and width).")]>
  (<["dst_height" :=
      Number (mk_NumberField int_type true (Some 1)
        "Destination height for resize.")]>
  (<["dst_width" :=
      Number (mk_NumberField int_type true (Some 1)
        "Destination width for resize")]>
   super_parameters)).

(** The names [parameters] declares. *)
Definition size_names : list string := ["dst_width"; "dst_height"; "size"].

(** Modelled from the spec: the configured sizes are positive integers
    validated upstream, by [NumberField], whose code is outside this file.
    A field accepts the integers that are not below its [min_value]. *)
Definition accepts (f : Field) (v : Z) : Prop :=
  match f with
  | Number f => match min_value f with Some m => m <= v | None => True end
  | Inherited _ => True
  end.

(** The objects of two stores are the same ones: each reference holds an
    object of the same class and identifier in both, or in neither. *)
Definition same_objects (σ σ' : store) : Prop :=
  ∀ r : ref, cls <$> σ' !! r = cls <$> σ !! r ∧
             identifier <$> σ' !! r = identifier <$> σ !! r.

(** ** Concrete objects used to run the definitions *)

Module Scenario.

Definition labels_2x2 : Np.ndarray :=
  Np.mk_ndarray Np.int64 [2; 2]%nat [0; 1; 2; 3].

(** Two class channels of one pixel each. *)
Definition scores_2x1x1 : Np.ndarray :=
  Np.mk_ndarray Np.int64 [2; 1; 1]%nat [7; 9].

Definition rgb_1x2 : Np.ndarray :=
  Np.mk_ndarray Np.int64 [1; 2; 3]%nat [0; 255; 256; 300; -1; 17].

(** [deprocess_predictions] with both sizes configured, on a 300 × 400
    frame, applied to predictions only. *)
Definition deprocess_64 : Resize :=
  mk_Resize (Some 64) (Some 64) [300; 400] true (Some PREDICTION).

(** Only the height is configured. *)
Definition height_only : Resize :=
  mk_Resize (Some 3) None [5; 4; 3] false (Some ANNOTATION).

(** Nothing is configured. *)
Definition bare : Resize := mk_Resize None None [5; 4; 3] false None.

Definition seg_annotation : entry :=
  mk_entry SegmentationAnnotation "frame0" labels_2x2.
Definition seg_prediction : entry :=
  mk_entry SegmentationPrediction "frame0" labels_2x2.
Definition seg_scores_prediction : entry :=
  mk_entry SegmentationPrediction "frame0" scores_2x1x1.
Definition seg_scores_annotation : entry :=
  mk_entry SegmentationAnnotation "frame0" scores_2x1x1.
Definition sr_prediction : entry :=
  mk_entry SuperResolutionPrediction "frame0" rgb_1x2.
Definition style_prediction : entry :=
  mk_entry StyleTransferPrediction "frame0" rgb_1x2.
Definition detection : entry :=
  mk_entry (OtherRepresentation "DetectionPrediction" []) "frame0"
    labels_2x2.

(** Object 1 is a segmentation annotation, object 2 a segmentation
    prediction. *)
Definition seg_pair : store :=
  <[1%nat := seg_annotation]> (<[2%nat := seg_prediction]> ∅).

End Scenario.

(** Further objects: a super-resolution pair of different sizes. *)
Module Pairing.

Definition gray_2x1 : Np.ndarray :=
  Np.mk_ndarray Np.int64 [2; 1; 3]%nat [10; 20; 30; 40; 50; 60].

Definition sr_annotation : entry :=
  mk_entry SuperResolutionAnnotation "frame0" gray_2x1.

(** Object 1 is a super-resolution annotation of 2 × 1 pixels, object 2 a
    super-resolution prediction of 1 × 2 pixels. *)
Definition sr_pair : store :=
  <[1%nat := sr_annotation]> (<[2%nat := Scenario.sr_prediction]> ∅).

(** Nothing is configured and both collections are processed. *)
Definition both : Resize := mk_Resize None None [5; 4; 3] false (Some ALL).

(** No height is configured and there is no [image_size] to fall back
    on. *)
Definition no_fallback : Resize := mk_Resize None (Some 3) [] false None.

(** Predictions are deprocessed on an [image_size] of one component. *)
Definition deprocess_short : Resize :=
  mk_Resize (Some 64) (Some 64) [300] true (Some PREDICTION).

(** The samples of [Scenario.rgb_1x2] after the cast, as an 8-bit array. *)
Definition rgb_1x2_cast : Np.ndarray :=
  Np.mk_ndarray Np.uint8 [1; 2; 3]%nat [0; 255; 0; 44; 255; 17].

Definition style_prediction_cast : entry :=
  mk_entry StyleTransferPrediction "frame0" rgb_1x2_cast.

(** An annotation of a class that derives from [SegmentationAnnotation]
    and is not itself imported by [resize.py]. *)
Definition brain_tumor_annotation : entry :=
  mk_entry
    (OtherRepresentation "BrainTumorSegmentationAnnotation"
       [SegmentationAnnotation])
    "frame0" Scenario.labels_2x2.

(** A prediction whose mask has no class channel. *)
Definition no_channel_prediction : entry :=
  mk_entry SegmentationPrediction "frame0"
    (Np.mk_ndarray Np.float32 [0; 2; 2]%nat []).

(** Both sizes are configured and there is no [image_size]. *)
Definition fixed_3x2 : Resize :=
  mk_Resize (Some 3) (Some 2) [] false (Some ALL).

(** Objects 4 and 5 are dense-value predictions of three channels. *)
Definition dense_pair : store :=
  <[4%nat := Scenario.style_prediction]>
    (<[5%nat := Scenario.sr_prediction]> ∅).

(** A base class that declares [apply_to] and, under the name [size], a
    field of another kind. *)
Definition base_parameters : gmap string Field :=
  <["size" := Inherited "StringField"]>
    (<["apply_to" := Inherited "StringField"]> ∅).

End Pairing.

(** ** The size policy *)

Section SetSizesFacts.

Variable self : Resize.

(** A configured size is truthy, so the conditional expression picks it;
    an unset size picks the fallback. *)
Lemma if_else_configured (x fallback : option Z) :
  configured x →
  if_else x fallback = match x with Some v => Some v | None => fallback end.
Proof.
  unfold if_else, truthy, configured. destruct x as [v|]; [|done].
  intros Hv. destruct (Z.eqb_spec v 0) as [->|]; [lia|done].
Qed.

(** A size of 0 would count as unset. *)
Lemma if_else_zero (fallback : option Z) : if_else (Some 0) fallback = fallback.
Proof. reflexivity. Qed.

(** C5.  Under the default rule the height is [dst_height] when it is
    configured and the height of [image_size] otherwise, the width is
    [dst_width] when it is configured and the width of [image_size]
    otherwise; each axis looks at its own setting only. *)
Theorem set_sizes_default_rule (e : entry) (ih iw : Z) (rest : list Z) :
  default_rule self e = true →
  configured (dst_height self) → configured (dst_width self) →
  image_size self = ih :: iw :: rest →
  set_sizes self e =
    Some (default ih (dst_height self), default iw (dst_width self)).
Proof.
  intros Hrule Hh Hw Hsize.
  assert (set_sizes self e = set_sizes_default self) as ->.
  { unfold set_sizes, set_sizes_segmentation_prediction, set_sizes_default,
      default_rule in *.
    destruct (dispatch set_sizes_register SizesUndecorated (cls e));
      try done.
    by destruct (_deprocess_predictions self). }
  unfold set_sizes_default.
  rewrite !if_else_configured, Hsize by done.
  by destruct (dst_height self), (dst_width self).
Qed.

(** C3.  For a super-resolution annotation or prediction each axis is the
    configured size when there is one and the entry's own [value.shape]
    axis otherwise; with nothing configured the size is the entry's own
    height and width. *)
Theorem set_sizes_super_resolution_rule (e : entry) (H W : nat)
    (rest : list nat) :
  cls e = SuperResolutionAnnotation ∨ cls e = SuperResolutionPrediction →
  configured (dst_height self) → configured (dst_width self) →
  Np.shape (payload e) = H :: W :: rest →
  set_sizes self e =
    Some (default (Z.of_nat H) (dst_height self),
          default (Z.of_nat W) (dst_width self)) ∧
  (dst_height self = None → dst_width self = None →
   set_sizes self e = Some (Z.of_nat H, Z.of_nat W)).
Proof.
  intros Hcls Hh Hw Hshape.
  assert (set_sizes self e =
    Some (default (Z.of_nat H) (dst_height self),
          default (Z.of_nat W) (dst_width self))) as Heq.
  { assert (set_sizes self e = set_sizes_super_resolution self e) as ->.
    { unfold set_sizes. by destruct Hcls as [-> | ->]. }
    unfold set_sizes_super_resolution, Np.shape_at.
    rewrite !if_else_configured, Hshape by done.
    by destruct (dst_height self), (dst_width self). }
  split; [done|]. intros Hnh Hnw. by rewrite Heq, Hnh, Hnw.
Qed.

(** [set_sizes] looks at the class of an entry through the dispatch only:
    an entry of a derived class is sized like an entry of the imported
    class its dispatch lands on. *)
Lemma set_sizes_derived (e : entry) (c : imported_class) :
  dispatch set_sizes_register SizesUndecorated (cls e) =
    dispatch set_sizes_register SizesUndecorated c →
  set_sizes self e =
    set_sizes self (mk_entry c (identifier e) (payload e)).
Proof. intros Heq. unfold set_sizes. cbn [cls]. by rewrite Heq. Qed.

(** The size [set_sizes] gives a segmentation prediction that is being
    deprocessed: the first two components of [image_size], whatever is
    configured. *)
Lemma set_sizes_deprocess (e : entry) (ih iw : Z) (rest : list Z) :
  cls e = SegmentationPrediction →
  _deprocess_predictions self = true →
  image_size self = ih :: iw :: rest →
  set_sizes self e = Some (ih, iw).
Proof.
  intros Hcls Hdep Hsize. unfold set_sizes, set_sizes_segmentation_prediction.
  by rewrite Hcls, Hdep, Hsize.
Qed.

End SetSizesFacts.

(** ** Slicing and stacking *)

Section NpFacts.

Lemma blocks_length (n k : nat) (l : list Z) : length (Np.blocks n k l) = n.
Proof.
  revert l. induction n as [|n IH]; intros l; simpl; [done | by rewrite IH].
Qed.

Lemma blocks_block_length (n k : nat) (l : list Z) :
  length l = (n * k)%nat → Forall (λ b, length b = k) (Np.blocks n k l).
Proof.
  revert l. induction n as [|n IH]; intros l Hl; simpl; constructor.
  - rewrite length_take. lia.
  - apply IH. rewrite length_drop. lia.
Qed.

(** Cutting a concatenation of equally long blocks gives the blocks back. *)
Lemma blocks_concat (k : nat) (ds : list (list Z)) :
  Forall (λ d, length d = k) ds → Np.blocks (length ds) k (concat ds) = ds.
Proof.
  induction 1 as [|d ds Hd _ IH]; simpl; [done|].
  rewrite take_app_length', drop_app_length' by done. by rewrite IH.
Qed.

(** Iterating over a well-formed array of at least one axis gives as many
    well-formed sub-arrays as the first axis is long. *)
Lemma iter_slices (a : Np.ndarray) (n : nat) (rest : list nat) :
  Np.wf a → Np.shape a = n :: rest →
  ∃ subs, Np.iter a = Some subs ∧ length subs = n ∧
          Forall (λ c, Np.wf c ∧ Np.shape c = rest) subs.
Proof.
  unfold Np.wf, Np.iter. intros Hwf Hshape. rewrite Hshape in *. simpl in Hwf.
  eexists; split; [done|]. split.
  - by rewrite length_fmap, blocks_length.
  - apply Forall_fmap.
    eapply Forall_impl; [apply blocks_block_length; by rewrite Hwf|].
    intros b Hb. by split.
Qed.

(** Stacking at least one array, all of shape [s]. *)
Lemma array_stack (l : list Np.ndarray) (s : list nat) :
  l ≠ [] → Forall (λ m, Np.wf m ∧ Np.shape m = s) l →
  ∃ m', Np.array l = Some m' ∧ Np.wf m' ∧
        Np.shape m' = length l :: s ∧
        Np.data m' = concat (Np.data <$> l) ∧
        Np.blocks (length l) (Np.size_of s) (Np.data m') = Np.data <$> l.
Proof.
  intros Hne Hall. destruct l as [|a rest]; [done|].
  pose proof Hall as Hall'. apply Forall_cons in Hall' as [[Hwa Hsa] Hrest].
  assert (forallb (λ b, bool_decide (Np.shape b = Np.shape a)) rest = true)
    as Hsame.
  { apply forallb_forall. intros b Hb%list_elem_of_In.
    apply bool_decide_eq_true_2.
    rewrite Forall_forall in Hrest. destruct (Hrest b Hb) as [_ ->]. done. }
  assert (Forall (λ d, length d = Np.size_of s) (Np.data <$> a :: rest))
    as Hlen.
  { apply Forall_fmap. eapply Forall_impl; [exact Hall|].
    intros m [Hw Hs]. simpl. unfold Np.wf in Hw. by rewrite Hw, Hs. }
  unfold Np.array. rewrite Hsame. eexists. split; [done|].
  cbn [Np.shape Np.data Np.dtype_of]. rewrite Hsa.
  assert (length (concat (Np.data <$> a :: rest)) =
          (length (a :: rest) * Np.size_of s)%nat) as Hcat.
  { clear -Hlen. revert Hlen. generalize (a :: rest). intros l.
    induction l as [|x l IH]; intros H; [done|].
    apply Forall_cons in H as [Hx Hl]. cbn [fmap list_fmap concat length].
    rewrite length_app, IH by done. simpl in Hx. lia. }
  repeat split.
  - unfold Np.wf. cbn [Np.shape Np.data Np.size_of foldr]. exact Hcat.
  - replace (length (a :: rest)) with (length (Np.data <$> a :: rest))
      by apply length_fmap.
    by apply blocks_concat.
Qed.

(** Stacking no array at all gives the empty array of one axis. *)
Lemma array_nil : Np.shape <$> Np.array [] = Some [0%nat].
Proof. reflexivity. Qed.

End NpFacts.

(** ** Resizing one entry *)

Section ResizeFacts.

Context {lib : Collaborators}.

(** C9.  An entry of a class that [resize] is not registered for is
    returned as it is, for every target size, and nothing is raised; the
    object in the store stays what it was. *)
Theorem resize_unregistered (e : entry) (height width : Z) :
  registered (cls e) = false →
  resize e height width = Some e ∧
  ∀ (r : nat) (σ : store),
    σ !! r = Some e → resize_at r height width σ = Some σ.
Proof.
  intros Hreg.
  assert (resize e height width = Some e) as He.
  { unfold resize, registered in *.
    by destruct (dispatch resize_register ResizeUndecorated (cls e)). }
  split; [done|]. intros r σ Hr. unfold resize_at.
  rewrite Hr. simpl. rewrite He. simpl. by rewrite insert_id.
Qed.

(** [resize] has no registration for a class exactly when no imported class
    is among its ancestors. *)
Lemma registered_false (c : repr_class) : registered c = false ↔ mro c = [].
Proof.
  unfold registered, dispatch. destruct c as [c | name [|c rest]]; simpl.
  - by destruct c.
  - done.
  - by destruct c.
Qed.

(** An entry of a class that derives from an imported class is resized by
    the function registered for the nearest imported ancestor, and keeps
    its own class. *)
Lemma resize_derived (e : entry) (name : string) (c : imported_class)
    (rest : list imported_class) (height width : Z) :
  cls e = OtherRepresentation name (c :: rest) →
  resize e height width =
    (λ e', mk_entry (cls e) (identifier e') (payload e')) <$>
      resize (mk_entry c (identifier e) (payload e)) height width.
Proof.
  intros Hcls.
  unfold resize, dispatch, resize_dense, resize_segmentation_prediction,
    resize_segmentation_annotation, set_payload.
  rewrite Hcls. cbn [cls identifier payload mro].
  destruct c; cbn;
    repeat match goal with
    | |- context [bool_decide ?P] => destruct (bool_decide P)
    | |- context [mbind _ ?o] => destruct o; cbn
    end; reflexivity.
Qed.

(** A segmentation annotation's mask goes to [segm_resize] whole, in one
    call, whatever its rank. *)
Lemma resize_annotation_whole (e : entry) (height width : Z) :
  cls e = SegmentationAnnotation →
  resize e height width =
    (mask ← segm_resize (payload e) width height; Some (set_payload e mask)).
Proof. intros Hcls. unfold resize. by rewrite Hcls. Qed.

(** C7.  A dense-value entry is cast to 8 bits, turned into an image,
    resized to (width, height) with the bicubic filter, and the array of
    that image is stored back.  When the resampling primitive meets its
    contract for the entry's channel count, the stored array has 8-bit
    elements and shape (height, width, channels), whatever the height and
    width were before. *)
Theorem resize_dense_value (e : entry) (height width : Z) (H W C : nat) :
  dense_class (cls e) = true →
  Np.wf (payload e) → Np.shape (payload e) = [H; W; C] →
  0 < height → 0 < width →
  Contract.resample_ok C →
  ∃ im im',
    Image_fromarray (Np.astype_uint8 (payload e)) = Some im ∧
    Image_resize im (width, height) BICUBIC = Some im' ∧
    resize e height width = Some (set_payload e (np_array_of_image im')) ∧
    Np.dtype_of (np_array_of_image im') = Np.uint8 ∧
    Np.shape (np_array_of_image im') = [Z.to_nat height; Z.to_nat width; C].
Proof.
  intros Hcls Hwf Hshape Hh Hw Hok.
  destruct (Hok (Np.astype_uint8 (payload e)) width height H W)
    as (im & im' & Him & Him' & _ & Hdt & Hsh); try done.
  { unfold Np.wf, Np.astype_uint8. simpl. by rewrite length_fmap. }
  exists im, im'. repeat split; try done.
  assert (resize e height width = resize_dense e height width) as ->.
  { unfold resize. destruct (cls e) as [[]|]; done. }
  unfold resize_dense. cbn [payload set_payload].
  rewrite Him. simpl. rewrite Him'. done.
Qed.

(** The C cast keeps every sample in the 8-bit range. *)
Lemma astype_uint8_range (a : Np.ndarray) :
  Forall (λ z, 0 <= z < 256) (Np.data (Np.astype_uint8 a)).
Proof.
  unfold Np.astype_uint8, Np.cast_uint8. simpl.
  apply Forall_fmap, Forall_forall. intros z _. simpl.
  destruct (Np.integer_dtype (Np.dtype_of a)); [by apply Z.mod_pos_bound|].
  case_bool_decide; [done | by apply Z.mod_pos_bound].
Qed.

(** C2, for predictions.  A segmentation prediction whose mask has shape
    (classes, H, W) with at least one class is cut into its class
    channels, each channel goes through [segm_resize] on its own, and the
    results are stacked in the order of the channels: the new mask has
    shape (classes, height, width) and its i-th channel is the resized
    i-th channel of the old one. *)
Theorem resize_prediction_channels (e : entry) (height width : Z)
    (C H W : nat) :
  cls e = SegmentationPrediction →
  Np.wf (payload e) → Np.shape (payload e) = [C; H; W] → (0 < C)%nat →
  0 < height → 0 < width →
  Contract.segm_resize_ok →
  ∃ class_masks entry_mask mask,
    Np.iter (payload e) = Some class_masks ∧
    length class_masks = C ∧
    Forall2 (λ class_mask resized,
               segm_resize class_mask width height = Some resized)
            class_masks entry_mask ∧
    Np.array entry_mask = Some mask ∧
    resize e height width = Some (set_payload e mask) ∧
    Np.shape mask = [C; Z.to_nat height; Z.to_nat width] ∧
    Np.blocks C (Z.to_nat height * Z.to_nat width) (Np.data mask) =
      Np.data <$> entry_mask.
Proof.
  intros Hcls Hwf Hshape HC Hh Hw Hok.
  destruct (iter_slices _ _ _ Hwf Hshape) as (subs & Hiter & Hlen & Hsubs).
  assert (∃ rs,
            Forall2 (λ c r, segm_resize c width height = Some r) subs rs ∧
            Forall (λ m, Np.wf m ∧
                         Np.shape m = [Z.to_nat height; Z.to_nat width]) rs)
    as (rs & Hrs & Hshapes).
  { clear Hiter Hlen. induction Hsubs as [|c subs [Hc1 Hc2] _ IH].
    - exists []. by split.
    - destruct IH as (rs & ? & ?).
      destruct (Hok c width height H W) as (r & Hr & ? & ?); try done.
      exists (r :: rs). split; by constructor. }
  assert (length rs = C) as Hrlen.
  { by rewrite <- (Forall2_length _ _ _ Hrs). }
  destruct (array_stack rs [Z.to_nat height; Z.to_nat width])
    as (mask & Harr & _ & Hmsh & _ & Hblocks); [|done|].
  { intros ->. simpl in Hrlen. lia. }
  exists subs, rs, mask. rewrite Hrlen in *. repeat split; try done.
  - unfold resize, resize_segmentation_prediction, Np.ndim.
    rewrite Hcls, Hshape, Hiter. simpl.
    apply mapM_Some_2 in Hrs. rewrite Hrs. simpl. by rewrite Harr.
  - rewrite <- Hblocks. f_equal. simpl. lia.
Qed.

(** A prediction mask of shape (0, H, W) has no channel to resize: the new
    mask is [np.array([])], of shape (0,). *)
Lemma resize_prediction_no_channel (e : entry) (height width : Z)
    (H W : nat) :
  cls e = SegmentationPrediction → Np.shape (payload e) = [0%nat; H; W] →
  Np.shape <$> (payload <$> resize e height width) = Some [0%nat].
Proof.
  intros Hcls Hshape.
  unfold resize, resize_segmentation_prediction, Np.ndim, Np.iter.
  by rewrite Hcls, Hshape.
Qed.

End ResizeFacts.

(** ** The loops *)

Section DriverFacts.

Context {lib : Collaborators}.
Variable self : Resize.

Lemma resize_with_inv (src tgt : nat) (σ σ' : store) :
  resize_with self src tgt σ = Some σ' →
  ∃ es et height width et',
    σ !! src = Some es ∧ σ !! tgt = Some et ∧
    set_sizes self es = Some (height, width) ∧
    resize et height width = Some et' ∧
    σ' = <[tgt := et']> σ.
Proof.
  unfold resize_with, set_sizes_at, resize_at.
  destruct (σ !! src) as [es|] eqn:Hes; [simpl|done].
  destruct (set_sizes self es) as [[height width]|] eqn:Hsz; [simpl|done].
  destruct (σ !! tgt) as [et|] eqn:Het; [simpl|done].
  destruct (resize et height width) as [et'|] eqn:Hrs; [simpl|done].
  intros [= <-]. by exists es, et, height, width, et'.
Qed.

Lemma for_each_app {A} (body : A → store → option (store))
    (l1 l2 : list A) (σ : store) :
  for_each body (l1 ++ l2) σ =
    (σ' ← for_each body l1 σ; for_each body l2 σ').
Proof.
  revert σ. induction l1 as [|x l1 IH]; intros σ; simpl; [done|].
  destruct (body x σ); simpl; [apply IH | done].
Qed.

Section Loop.

Context {A : Type} (src tgt : A → nat).

Let body (x : A) := resize_with self (src x) (tgt x).

(** A loop writes the objects it resizes and nothing else. *)
Lemma for_each_frame (l : list A) (σ σ' : store) (r : nat) :
  for_each body l σ = Some σ' → r ∉ tgt <$> l → σ' !! r = σ !! r.
Proof.
  revert σ. induction l as [|x l IH]; intros σ; simpl.
  - by intros [= <-].
  - destruct (body x σ) as [σ1|] eqn:Hx; [simpl|done].
    intros Hl Hr. apply not_elem_of_cons in Hr as [Hne Hr].
    rewrite (IH σ1 Hl Hr).
    apply resize_with_inv in Hx as (? & ? & ? & ? & ? & _ & _ & _ & _ & ->).
    by rewrite lookup_insert_ne.
Qed.

(** When no object is resized twice and no size is read from an object
    that the loop resizes elsewhere, every iteration shows in the final
    store as if it had run alone on the initial one. *)
Lemma for_each_resolved (l : list A) (σ σ' : store) :
  NoDup (tgt <$> l) →
  (∀ x, x ∈ l → src x = tgt x ∨ src x ∉ tgt <$> l) →
  for_each body l σ = Some σ' →
  ∀ x, x ∈ l → resolved_from self σ σ' (src x) (tgt x).
Proof.
  revert σ. induction l as [|x0 l IH]; intros σ Hnd Hsrc Hrun x Hx.
  { by apply elem_of_nil in Hx. }
  simpl in Hrun. destruct (body x0 σ) as [σ1|] eqn:Hx0; [simpl in Hrun|done].
  rewrite fmap_cons in Hnd. apply NoDup_cons in Hnd as [Hfresh Hnd].
  pose proof (resize_with_inv _ _ _ _ Hx0)
    as (es & et & height & width & et' & Hes & Het & Hsz & Hrs & ->).
  apply elem_of_cons in Hx as [-> | Hx].
  - exists es, et, height, width, et'. repeat split; try done.
    rewrite (for_each_frame _ _ _ _ Hrun Hfresh). apply lookup_insert_eq.
  - assert (tgt x ≠ tgt x0) as Hne.
    { intros Heq. apply Hfresh. rewrite <- Heq. by apply list_elem_of_fmap_2. }
    assert (src x ≠ tgt x0) as Hne'.
    { destruct (Hsrc x) as [-> | Hout]; [by right | done |].
      intros Heq. apply Hout. rewrite Heq, fmap_cons. by left. }
    assert (∀ y, y ∈ l → src y = tgt y ∨ src y ∉ tgt <$> l) as Hsrc'.
    { intros y Hy. destruct (Hsrc y) as [? | Hout]; [by right | by left |].
      right. intros Hin. apply Hout. rewrite fmap_cons. by right. }
    destruct (IH _ Hnd Hsrc' Hrun x Hx)
      as (es1 & et1 & h1 & w1 & et1' & Hes1 & Het1 & ? & ? & ?).
    rewrite lookup_insert_ne in Hes1, Het1 by done.
    by exists es1, et1, h1, w1, et1'.
Qed.

End Loop.

End DriverFacts.

(** ** [process_image] *)

Section ProcessImageFacts.

Context {lib : Collaborators}.
Variable self : Resize.

(** Evaluates the membership tests of the two gates. *)
Ltac eval_gates :=
  repeat match goal with
  | |- context [bool_decide (?a ∈ ?l)] =>
      let b := eval vm_compute in (bool_decide (a ∈ l)) in
      change (bool_decide (a ∈ l)) with b
  end; cbn.

Lemma zip_targets {A} (l : list A) (k : list nat) :
  (zip l k).*2 = take (length l) k.
Proof.
  revert k. induction l as [|x l IH]; intros [|y k]; simpl; try done.
  by rewrite IH.
Qed.

Lemma NoDup_take_of {A} (n : nat) (l : list A) : NoDup l → NoDup (take n l).
Proof. intros Hl. exact (sublist_NoDup _ _ Hl (sublist_take _ _)). Qed.

Lemma prediction_pass_nil (predictions : list nat) (σ : store) :
  prediction_pass self [] predictions σ =
    for_each (single_body self) predictions σ.
Proof. reflexivity. Qed.

Lemma prediction_pass_paired (annotations : list (option nat))
    (predictions : list nat) (σ : store) :
  annotations ≠ [] →
  prediction_pass self annotations predictions σ =
    for_each (paired_body self) (zip annotations predictions) σ.
Proof.
  intros Hne. unfold prediction_pass. by rewrite bool_decide_eq_true_2.
Qed.

(** The prediction pass writes predictions only. *)
Lemma prediction_pass_frame (annotations : list (option nat))
    (predictions : list nat) (σ σ' : store) (r : nat) :
  prediction_pass self annotations predictions σ = Some σ' →
  r ∉ predictions → σ' !! r = σ !! r.
Proof.
  unfold prediction_pass. case_bool_decide; intros Hrun Hr.
  - apply (for_each_frame self (λ ap, default ap.2 ap.1) snd _ _ _ _ Hrun).
    change (r ∉ (zip annotations predictions).*2).
    rewrite zip_targets. intros (j & Hj & _)%elem_of_take.
    apply Hr, list_elem_of_lookup. eauto.
  - apply (for_each_frame self id id _ _ _ _ Hrun). by rewrite list_fmap_id.
Qed.

(** C4.  With annotations, the prediction pass runs over the zipped pairs
    and the size for a prediction is resolved from its annotation when
    there is one and from the prediction itself when the annotation is
    [None]; with no annotations it runs over the predictions, each
    resolved from itself.  When the predictions are distinct objects and
    none is also an annotation, each zipped prediction ends up resized to
    the size its annotation (or, without one, the prediction itself) gave
    in the initial store, and a prediction beyond the zip is untouched. *)
Theorem prediction_pass_resolution (annotations : list (option nat))
    (predictions : list nat) (σ : store) :
  (annotations = [] →
   prediction_pass self annotations predictions σ =
     for_each (single_body self) predictions σ) ∧
  (annotations ≠ [] →
   prediction_pass self annotations predictions σ =
     for_each (paired_body self) (zip annotations predictions) σ) ∧
  (∀ a p, paired_body self (Some a, p) σ = resize_with self a p σ) ∧
  (∀ p, paired_body self (None, p) σ = resize_with self p p σ ∧
        single_body self p σ = resize_with self p p σ) ∧
  (∀ σ', NoDup predictions →
     (∀ a, Some a ∈ annotations → a ∉ predictions) →
     prediction_pass self annotations predictions σ = Some σ' →
     ∀ i p, predictions !! i = Some p →
       match annotations with
       | [] => resolved_from self σ σ' p p
       | _ :: _ =>
           match annotations !! i with
           | Some (Some a) => resolved_from self σ σ' a p
           | Some None => resolved_from self σ σ' p p
           | None => σ' !! p = σ !! p
           end
       end).
Proof.
  split; [by intros ->|]. split; [apply prediction_pass_paired|].
  split; [done|]. split; [done|].
  intros σ' Hnd Hdisj Hrun i p Hp.
  destruct annotations as [|a0 annotations'] eqn:Hanns.
  { rewrite prediction_pass_nil in Hrun.
    apply (for_each_resolved self id id predictions σ σ'); try done.
    - by rewrite list_fmap_id.
    - intros x _. by left.
    - apply list_elem_of_lookup. eauto. }
  rewrite <- Hanns in *.
  assert (annotations ≠ []) as Hne by (by rewrite Hanns).
  rewrite (prediction_pass_paired _ _ _ Hne) in Hrun.
  destruct (annotations !! i) as [oa|] eqn:Hai.
  - assert ((oa, p) ∈ zip annotations predictions) as Hin.
    { apply list_elem_of_lookup. exists i.
      apply lookup_zip_with_Some. by exists oa, p. }
    pose proof (for_each_resolved self (λ ap, default ap.2 ap.1) snd
                  (zip annotations predictions) σ σ') as Hres.
    cbv beta in Hres.
    assert (snd <$> zip annotations predictions =
            take (length annotations) predictions) as Htg
      by apply zip_targets.
    rewrite Htg in Hres.
    specialize (Hres (NoDup_take_of _ _ Hnd)).
    assert (∀ x, x ∈ zip annotations predictions →
              default x.2 x.1 = x.2 ∨
              default x.2 x.1 ∉ take (length annotations) predictions)
      as Hsrc.
    { intros [[a|] q] Hx; simpl; [right | by left].
      intros Hin'%elem_of_take. destruct Hin' as (j & Hj & _).
      apply (Hdisj a).
      - apply list_elem_of_lookup in Hx as [k Hk].
        apply lookup_zip_with_Some in Hk as (x & y & [= <- <-] & Hk & _).
        apply list_elem_of_lookup. eauto.
      - apply list_elem_of_lookup. eauto. }
    specialize (Hres Hsrc Hrun _ Hin). by destruct oa.
  - apply (for_each_frame self (λ ap, default ap.2 ap.1) snd _ _ _ _ Hrun).
    change (p ∉ (zip annotations predictions).*2). rewrite zip_targets.
    intros (j & Hj & Hlt)%elem_of_take.
    pose proof (NoDup_lookup _ _ _ _ Hnd Hp Hj) as ->.
    apply lookup_ge_None in Hai. lia.
Qed.

(** C10.  When [apply_to] is [PREDICTION], [process_image] hands back
    the collections it was given and leaves every annotation object as it
    was, provided no annotation is at the same time one of the
    predictions: annotations are read for their size and never written. *)
Theorem prediction_only_keeps_annotations (annotations : list (option nat))
    (predictions : list nat) (σ : store)
    (out : list (option nat) * list nat * store) :
  apply_to self = Some PREDICTION →
  (∀ a, Some a ∈ annotations → a ∉ predictions) →
  process_image self annotations predictions σ = Some out →
  out.1 = (annotations, predictions) ∧
  ∀ a, Some a ∈ annotations → out.2 !! a = σ !! a.
Proof.
  intros Hto Hdisj. unfold process_image, applies. rewrite Hto. eval_gates.
  destruct (prediction_pass self annotations predictions σ) as [σ'|] eqn:Hrun;
    [simpl|done].
  intros [= <-]. split; [done|]. intros a Ha. simpl.
  eapply prediction_pass_frame; [exact Hrun | by apply Hdisj].
Qed.

Lemma annotation_pass_present (annotations : list (option nat))
    (σ : store) :
  annotation_pass self annotations σ =
    for_each (λ r, resize_with self r r) (omap id annotations) σ.
Proof.
  unfold annotation_pass. revert σ.
  induction annotations as [|[r|] l IH]; intros σ; simpl; [done| |apply IH].
  destruct (resize_with self r r σ); simpl; [apply IH | done].
Qed.

(** C8.  In the annotation pass a [None] entry leaves the store as it is
    and raises nothing, wherever it stands in the collection; the pass is
    the loop over the present entries, each resolved from itself and
    resized.  When the present entries are distinct objects, each ends up
    resized to the size it had resolved to in the initial store. *)
Theorem annotation_pass_skips_none (annotations : list (option nat))
    (σ : store) :
  annotation_body self None σ = Some σ ∧
  (∀ r, annotation_body self (Some r) σ = resize_with self r r σ) ∧
  annotation_pass self annotations σ =
    for_each (λ r, resize_with self r r) (omap id annotations) σ ∧
  (∀ before after,
     annotation_pass self (before ++ None :: after) σ =
       annotation_pass self (before ++ after) σ) ∧
  (∀ σ', NoDup (omap id annotations) →
     annotation_pass self annotations σ = Some σ' →
     ∀ r, Some r ∈ annotations → resolved_from self σ σ' r r).
Proof.
  split; [done|]. split; [done|]. split; [apply annotation_pass_present|].
  split.
  - intros before after. rewrite !annotation_pass_present.
    by rewrite !omap_app.
  - intros σ' Hnd Hrun r Hr. rewrite annotation_pass_present in Hrun.
    apply (for_each_resolved self id id (omap id annotations) σ σ');
      try done.
    + by rewrite list_fmap_id.
    + intros x _. by left.
    + apply list_elem_of_omap. by exists (Some r).
Qed.

(** C6, as far as it holds.  The prediction pass runs exactly when
    [apply_to] is unset, [PREDICTION] or [ALL]; the annotation pass runs
    exactly when it is unset, [ANNOTATION] or [ALL].  Each gate looks at
    [apply_to] alone: [PREDICTION] runs the prediction pass only,
    [ANNOTATION] the annotation pass only, unset and [ALL] run the
    prediction pass and then the annotation pass; some pass always
    runs. *)
Theorem process_image_gates (annotations : list (option nat))
    (predictions : list nat) (σ : store) :
  (applies self [PREDICTION; ALL] = true ↔
     apply_to self = None ∨ apply_to self = Some PREDICTION ∨
     apply_to self = Some ALL) ∧
  (applies self [ANNOTATION; ALL] = true ↔
     apply_to self = None ∨ apply_to self = Some ANNOTATION ∨
     apply_to self = Some ALL) ∧
  process_image self annotations predictions σ =
    match apply_to self with
    | Some PREDICTION =>
        σ1 ← prediction_pass self annotations predictions σ;
        Some (annotations, predictions, σ1)
    | Some ANNOTATION =>
        σ1 ← annotation_pass self annotations σ;
        Some (annotations, predictions, σ1)
    | Some ALL | None =>
        σ1 ← prediction_pass self annotations predictions σ;
        σ2 ← annotation_pass self annotations σ1;
        Some (annotations, predictions, σ2)
    end ∧
  applies self [PREDICTION; ALL] || applies self [ANNOTATION; ALL] = true.
Proof.
  unfold process_image, applies.
  destruct (apply_to self) as [[| |]|]; cbn;
    (split; [|split; [|split; [|reflexivity]]]);
    try (split; [intros; try discriminate; auto
                | intros [?|[?|?]]; done]).
  all: eval_gates; reflexivity.
Qed.

(** C1, as far as it holds.  When predictions are being deprocessed, the
    size [set_sizes] resolves from a segmentation prediction is the height
    and width of [image_size], whatever [dst_height] and [dst_width] are;
    so is the size the prediction is resized to whenever the loop resolves
    it from the prediction itself, which it does when there are no
    annotations or the annotation at its place is [None]. *)
Theorem deprocess_precedence (e : entry) (ih iw : Z) (rest : list Z) :
  cls e = SegmentationPrediction →
  _deprocess_predictions self = true →
  image_size self = ih :: iw :: rest →
  set_sizes self e = Some (ih, iw) ∧
  ∀ (p : nat) (σ : store), σ !! p = Some e →
    single_body self p σ = resize_at p ih iw σ ∧
    paired_body self (None, p) σ = resize_at p ih iw σ.
Proof.
  intros Hcls Hdep Hsize.
  pose proof (set_sizes_deprocess self e ih iw rest Hcls Hdep Hsize) as Hsz.
  split; [done|]. intros p σ Hp.
  unfold single_body, paired_body, resize_with, set_sizes_at. simpl.
  by rewrite Hp; simpl; rewrite Hsz.
Qed.

End ProcessImageFacts.

(** ** The nearest-neighbour instances meet the contracts *)

Section NearestFacts.

Lemma flat_map_length_const {A B} (f : A → list B) (c : nat) (l : list A) :
  (∀ x, length (f x) = c) → length (flat_map f l) = (length l * c)%nat.
Proof.
  intros Hf. induction l as [|x l IH]; simpl; [done|].
  by rewrite length_app, IH, Hf.
Qed.

Lemma sample_length (H W k : nat) (l : list Z) (height width : nat) :
  length (Nearest.sample H W k l height width) = (height * (width * k))%nat.
Proof.
  unfold Nearest.sample.
  rewrite (flat_map_length_const _ (width * k)), length_seq; [done|].
  intros i. rewrite (flat_map_length_const _ k), length_seq; [done|].
  intros j. by rewrite length_map, length_seq.
Qed.

Lemma nearest_segm_resize_ok : @Contract.segm_resize_ok Nearest.collaborators.
Proof.
  intros mask width height H W _ Hshape Hw Hh. simpl.
  unfold Nearest.segm_resize. rewrite Hshape.
  rewrite bool_decide_eq_true_2 by done.
  eexists. split; [done|]. split; [|done].
  unfold Np.wf. simpl. rewrite sample_length. lia.
Qed.

Lemma nearest_resample_ok (C : nat) :
  @Contract.resample_ok Nearest.collaborators C.
Proof.
  intros a width height H W _ Hdt Hshape Hw Hh. simpl.
  exists a. unfold Nearest.Image_fromarray, Nearest.Image_resize,
    Nearest.np_array_of_image.
  rewrite Hshape, Hdt. simpl.
  rewrite bool_decide_eq_true_2 by done.
  eexists. split; [done|]. split; [done|]. split; [|done].
  unfold Np.wf. simpl. rewrite sample_length. lia.
Qed.

End NearestFacts.

(** ** The theorems at concrete objects *)

Lemma set_sizes_default_rule_witness :
  set_sizes Scenario.height_only Scenario.seg_annotation = Some (3, 4).
Proof.
  apply (set_sizes_default_rule Scenario.height_only Scenario.seg_annotation
           5 4 [3]); [reflexivity | simpl; lia | exact I | reflexivity].
Defined.

Lemma set_sizes_super_resolution_rule_witness :
  set_sizes Scenario.bare Scenario.sr_prediction = Some (1, 2).
Proof.
  apply (set_sizes_super_resolution_rule Scenario.bare Scenario.sr_prediction
           1 2 [3%nat]);
    [right; reflexivity | exact I | exact I | reflexivity
    | reflexivity | reflexivity].
Defined.

Lemma resize_unregistered_witness :
  resize_nearest Scenario.detection 7 9 = Some Scenario.detection.
Proof.
  exact (proj1 (resize_unregistered (lib := Nearest.collaborators)
                  Scenario.detection 7 9 eq_refl)).
Defined.

Lemma resize_dense_value_witness :
  Np.shape <$> (payload <$> resize_nearest Scenario.style_prediction 2 2) =
    Some [2; 2; 3]%nat.
Proof.
  destruct (resize_dense_value (lib := Nearest.collaborators)
              Scenario.style_prediction 2 2 1 2 3)
    as (im & im' & _ & _ & Hres & _ & Hshape).
  - reflexivity.
  - reflexivity.
  - reflexivity.
  - lia.
  - lia.
  - apply nearest_resample_ok.
  - unfold resize_nearest. rewrite Hres. exact (f_equal Some Hshape).
Defined.

Lemma resize_prediction_channels_witness :
  Np.shape <$>
    (payload <$> resize_nearest Scenario.seg_scores_prediction 2 3) =
    Some [2; 2; 3]%nat.
Proof.
  destruct (resize_prediction_channels (lib := Nearest.collaborators)
              Scenario.seg_scores_prediction 2 3 2 1 1)
    as (cs & rs & mask & _ & _ & _ & _ & Hres & Hshape & _).
  - reflexivity.
  - reflexivity.
  - reflexivity.
  - lia.
  - lia.
  - lia.
  - apply nearest_segm_resize_ok.
  - unfold resize_nearest. rewrite Hres. exact (f_equal Some Hshape).
Defined.

Lemma deprocess_precedence_witness :
  set_sizes Scenario.deprocess_64 Scenario.seg_prediction = Some (300, 400).
Proof.
  exact (proj1 (deprocess_precedence (lib := Nearest.collaborators)
                  Scenario.deprocess_64 Scenario.seg_prediction 300 400 []
                  eq_refl eq_refl eq_refl)).
Defined.

Lemma prediction_pass_resolution_witness :
  ∃ σ', prediction_pass (lib := Nearest.collaborators) Scenario.height_only
          [Some 1%nat] [2%nat; 3%nat] Scenario.seg_pair = Some σ' ∧
        resolved_from (lib := Nearest.collaborators) Scenario.height_only
          Scenario.seg_pair σ' 1%nat 2%nat.
Proof.
  destruct (prediction_pass (lib := Nearest.collaborators) Scenario.height_only
              [Some 1%nat] [2%nat; 3%nat] Scenario.seg_pair)
    as [σ'|] eqn:Hrun; [|vm_compute in Hrun; discriminate].
  exists σ'. split; [reflexivity|].
  refine (proj2 (proj2 (proj2 (proj2
            (prediction_pass_resolution (lib := Nearest.collaborators)
               Scenario.height_only [Some 1%nat] [2%nat; 3%nat]
               Scenario.seg_pair)))) σ' _ _ Hrun 0%nat 2%nat eq_refl).
  - apply NoDup_cons. split; [|apply NoDup_singleton].
    intros Hin. apply list_elem_of_singleton in Hin. discriminate.
  - intros a Ha. apply list_elem_of_singleton in Ha. injection Ha as ->.
    intros Hin. apply elem_of_cons in Hin as [Hin | Hin]; [discriminate|].
    apply list_elem_of_singleton in Hin. discriminate.
Defined.

Lemma prediction_only_keeps_annotations_witness :
  ∃ out, process_image_nearest Scenario.deprocess_64 [Some 1%nat] [2%nat]
           Scenario.seg_pair = Some out ∧
         out.2 !! 1%nat = Some Scenario.seg_annotation.
Proof.
  destruct (process_image_nearest Scenario.deprocess_64 [Some 1%nat] [2%nat]
              Scenario.seg_pair) as [out|] eqn:Hrun;
    [|vm_compute in Hrun; discriminate].
  exists out. split; [reflexivity|].
  refine (proj2 (prediction_only_keeps_annotations
                   (lib := Nearest.collaborators) Scenario.deprocess_64
                   [Some 1%nat] [2%nat] Scenario.seg_pair out eq_refl _ Hrun)
            1%nat _).
  - intros a Ha. apply list_elem_of_singleton in Ha. injection Ha as ->.
    intros Hin. apply list_elem_of_singleton in Hin. discriminate.
  - apply list_elem_of_singleton. reflexivity.
Defined.

Lemma annotation_pass_skips_none_witness :
  ∃ σ', annotation_pass (lib := Nearest.collaborators) Scenario.height_only
          [None; Some 1%nat] Scenario.seg_pair = Some σ' ∧
        resolved_from (lib := Nearest.collaborators) Scenario.height_only
          Scenario.seg_pair σ' 1%nat 1%nat.
Proof.
  destruct (annotation_pass (lib := Nearest.collaborators) Scenario.height_only
              [None; Some 1%nat] Scenario.seg_pair)
    as [σ'|] eqn:Hrun; [|vm_compute in Hrun; discriminate].
  exists σ'. split; [reflexivity|].
  refine (proj2 (proj2 (proj2 (proj2
            (annotation_pass_skips_none (lib := Nearest.collaborators)
               Scenario.height_only [None; Some 1%nat] Scenario.seg_pair))))
            σ' _ Hrun 1%nat _).
  - apply NoDup_singleton.
  - apply elem_of_cons. right. apply list_elem_of_singleton. reflexivity.
Defined.

(** ** Where the code departs from the description *)

(** C1.  Predictions are being deprocessed and object 2 is a segmentation
    prediction, but it is zipped with the annotation 1: the size comes from
    the annotation, by the default rule, and the prediction ends up 64 × 64
    on a 300 × 400 frame. *)
Lemma deprocess_overridden_by_annotation :
  _deprocess_predictions Scenario.deprocess_64 = true ∧
  image_size Scenario.deprocess_64 = [300; 400] ∧
  cls <$> Scenario.seg_pair !! 2%nat =
    Some (Imported SegmentationPrediction) ∧
  set_sizes_at Scenario.deprocess_64 (default 2%nat (Some 1%nat))
    Scenario.seg_pair = Some (64, 64) ∧
  (out ← process_image_nearest Scenario.deprocess_64 [Some 1%nat] [2%nat]
           Scenario.seg_pair;
   e ← out.2 !! 2%nat; Some (Np.shape (payload e))) = Some [64; 64]%nat.
Proof. vm_compute. repeat split. Qed.

(** C2.  A segmentation annotation whose mask has shape (2, 1, 1) is not
    cut into channels: the whole mask goes to [segm_resize] in one call,
    which refuses an array that is not 2-d, so nothing of shape (2, 2, 3)
    comes out.  The prediction with the same mask is resized channel by
    channel. *)
Lemma annotation_channels_not_split :
  Np.shape (payload Scenario.seg_scores_annotation) = [2; 1; 1]%nat ∧
  resize_nearest Scenario.seg_scores_annotation 2 3 =
    (mask ← Nearest.segm_resize Scenario.scores_2x1x1 3 2;
     Some (set_payload Scenario.seg_scores_annotation mask)) ∧
  resize_nearest Scenario.seg_scores_annotation 2 3 = None ∧
  Np.shape <$>
    (payload <$> resize_nearest Scenario.seg_scores_prediction 2 3) =
    Some [2; 2; 3]%nat.
Proof. vm_compute. repeat split. Qed.

(** C6.  No value of [apply_to] closes both gates: it never happens that
    neither pass runs. *)
Lemma some_pass_always_runs :
  ¬ ∃ self : Resize,
      applies self [PREDICTION; ALL] = false ∧
      applies self [ANNOTATION; ALL] = false.
Proof.
  intros ([dh dw size dep [[| |]|]] & Hp & Ha); vm_compute in Hp, Ha;
    discriminate.
Qed.


(** * Further properties of the postprocessor *)

(** ** When the size policy raises *)

Section SetSizesEdges.

Variable self : Resize.

Lemma if_else_None (x fallback : option Z) :
  if_else x fallback = None ↔ truthy x = false ∧ fallback = None.
Proof.
  unfold if_else, truthy. destruct x as [v|]; simpl.
  - destruct (v =? 0); simpl; [tauto|]. split; [done | by intros [? _]].
  - tauto.
Qed.

Lemma lookup_None_length (l : list Z) (i : nat) :
  l !! i = None ↔ (length l ≤ i)%nat.
Proof. apply lookup_ge_None. Qed.

(** X1.  Under the default rule [set_sizes] raises exactly when an axis
    that is not configured (or configured as 0) has no component of
    [image_size] to fall back on; with both axes configured [image_size]
    is not consulted at all. *)
Theorem set_sizes_default_raises (e : entry) :
  default_rule self e = true →
  (set_sizes self e = None ↔
     (truthy (dst_height self) = false ∧ length (image_size self) = 0%nat) ∨
     (truthy (dst_width self) = false ∧ (length (image_size self) ≤ 1)%nat)).
Proof.
  intros Hrule.
  assert (set_sizes self e = set_sizes_default self) as ->.
  { unfold set_sizes, set_sizes_segmentation_prediction, set_sizes_default,
      default_rule in *.
    destruct (dispatch set_sizes_register SizesUndecorated (cls e));
      try done.
    by destruct (_deprocess_predictions self). }
  unfold set_sizes_default.
  destruct (if_else (dst_height self) (image_size self !! 0%nat))
    as [height|] eqn:Hh; simpl.
  - destruct (if_else (dst_width self) (image_size self !! 1%nat))
      as [width|] eqn:Hw; simpl.
    + split; [done|]. intros [[Ht Hl] | [Ht Hl]].
      * assert (if_else (dst_height self) (image_size self !! 0%nat) = None)
          as Hn; [|congruence].
        apply if_else_None. split; [done|]. apply lookup_None_length. lia.
      * assert (if_else (dst_width self) (image_size self !! 1%nat) = None)
          as Hn; [|congruence].
        apply if_else_None. split; [done|]. by apply lookup_None_length.
    + apply if_else_None in Hw as [Ht Hl%lookup_None_length]. split; [|done].
      intros _. by right.
  - apply if_else_None in Hh as [Ht Hl%lookup_None_length]. split; [|done].
    intros _. left. split; [done | lia].
Qed.

(** X2.  While predictions are deprocessed, [set_sizes] on a segmentation
    prediction raises exactly when [image_size] has fewer than two
    components, however [dst_height] and [dst_width] are configured; when
    it does not raise, the size is made of the first two components. *)
Theorem set_sizes_deprocess_raises (e : entry) :
  cls e = SegmentationPrediction →
  _deprocess_predictions self = true →
  (set_sizes self e = None ↔ (length (image_size self) < 2)%nat) ∧
  (∀ height width, set_sizes self e = Some (height, width) →
     take 2 (image_size self) = [height; width]).
Proof.
  intros Hcls Hdep. unfold set_sizes, set_sizes_segmentation_prediction.
  rewrite Hcls, Hdep.
  destruct (image_size self) as [|ih [|iw rest]]; simpl.
  - split; [split; [lia | done] | done].
  - split; [split; [lia | done] | done].
  - rewrite take_0. simpl. split; [split; [done | lia]|].
    by intros height width [= <- <-].
Qed.

End SetSizesEdges.

(** A size configured as 0 counts as not configured: on every entry
    [set_sizes] gives what it gives with that size unset. *)
Lemma set_sizes_zero_is_unset (dst : option Z) (size : list Z)
    (deprocess : bool) (to : option ApplyToOption) (e : entry) :
  set_sizes (mk_Resize (Some 0) dst size deprocess to) e =
    set_sizes (mk_Resize None dst size deprocess to) e ∧
  set_sizes (mk_Resize dst (Some 0) size deprocess to) e =
    set_sizes (mk_Resize dst None size deprocess to) e.
Proof.
  unfold set_sizes, set_sizes_default, set_sizes_super_resolution,
    set_sizes_segmentation_prediction.
  split; destruct (cls e); simpl; try reflexivity;
    destruct deprocess; reflexivity.
Qed.

(** ** The declared parameters and the class attributes *)

Section Declarations.

(** X3.  [parameters] keeps every parameter of the base class under
    another name and declares the three sizes, over whatever the base class
    declared under these names, as optional integers of at least 1; so a
    size these fields accept is never taken for an unset one by the
    conditional expressions of [set_sizes]. *)
Theorem parameters_sizes (super_parameters : gmap string Field)
    (name : string) :
  (name ∉ size_names →
   parameters super_parameters !! name = super_parameters !! name) ∧
  (name ∈ size_names →
   ∃ f, parameters super_parameters !! name = Some (Number f) ∧
        field_type f = int_type ∧ optional f = true ∧
        min_value f = Some 1 ∧
        ∀ v, accepts (Number f) v →
             configured (Some v) ∧
             ∀ fallback, if_else (Some v) fallback = Some v).
Proof.
  unfold size_names, parameters. split.
  - intros Hname. rewrite !not_elem_of_cons in Hname.
    destruct Hname as (? & ? & ? & _).
    by rewrite !lookup_insert_ne.
  - intros Hname. rewrite !elem_of_cons, elem_of_nil in Hname.
    assert (∀ f, min_value f = Some 1 → ∀ v, accepts (Number f) v →
              configured (Some v) ∧
              ∀ fallback, if_else (Some v) fallback = Some v) as Hacc.
    { intros f Hmin v Hv. simpl in Hv. rewrite Hmin in Hv. split; [done|].
      intros fallback. by rewrite if_else_configured. }
    destruct Hname as [-> | [-> | [-> | []]]].
    + rewrite lookup_insert_ne, lookup_insert_ne, lookup_insert_eq by done.
      eexists. split; [reflexivity|]. split; [done|]. split; [done|].
      split; [done|]. apply Hacc. reflexivity.
    + rewrite lookup_insert_ne, lookup_insert_eq by done.
      eexists. split; [reflexivity|]. split; [done|]. split; [done|].
      split; [done|]. apply Hacc. reflexivity.
    + rewrite lookup_insert_eq.
      eexists. split; [reflexivity|]. split; [done|]. split; [done|].
      split; [done|]. apply Hacc. reflexivity.
Qed.

(** X4.  Every class listed in [prediction_types] or [annotation_types] has
    a registration of [resize], and the listed classes other than the two
    segmentation ones take the dense branch.  [annotation_types] lists
    [ImageInpaintingPrediction]; [ImageInpaintingAnnotation], for which
    [resize] is registered, is in neither list. *)
Theorem listed_types_registered :
  (∀ c, c ∈ prediction_types ++ annotation_types →
        registered c = true ∧
        (c ≠ SegmentationPrediction → c ≠ SegmentationAnnotation →
         dense_class c = true)) ∧
  Imported ImageInpaintingPrediction ∈ annotation_types ∧
  registered ImageInpaintingAnnotation = true ∧
  Imported ImageInpaintingAnnotation ∉ prediction_types ++ annotation_types.
Proof.
  split; [|split; [|split]].
  - intros c Hc. unfold prediction_types, annotation_types in Hc. simpl in Hc.
    rewrite !elem_of_cons, elem_of_nil in Hc.
    repeat (destruct Hc as [-> | Hc]; [by split|]). done.
  - unfold annotation_types. simpl. rewrite !elem_of_cons. tauto.
  - done.
  - unfold prediction_types, annotation_types. simpl.
    rewrite !not_elem_of_cons. repeat split; try done. apply not_elem_of_nil.
Qed.

End Declarations.

(** ** More on resizing one entry *)

Section ResizeEdges.

Context {lib : Collaborators}.

(** [resize] assigns [value] or [mask] and no other attribute. *)
Lemma resize_keeps_class (e e' : entry) (height width : Z) :
  resize e height width = Some e' →
  cls e' = cls e ∧ identifier e' = identifier e.
Proof.
  unfold resize, resize_dense, resize_segmentation_prediction,
    resize_segmentation_annotation.
  intros Hres.
  assert (∀ (o : option Np.ndarray) (e0 : entry),
            cls e0 = cls e → identifier e0 = identifier e →
            (a ← o; Some (set_payload e0 a)) = Some e' →
            cls e' = cls e ∧ identifier e' = identifier e) as Hset.
  { intros [a|] e0 Hc Hi; [|done]. simpl. by intros [= <-]. }
  destruct (dispatch resize_register ResizeUndecorated (cls e)).
  - by injection Hres as <-.
  - cbn [payload set_payload] in Hres.
    destruct (Image_fromarray (Np.astype_uint8 (payload e))) as [im|];
      [|done].
    simpl in Hres.
    destruct (Image_resize im (width, height) BICUBIC) as [im'|]; [|done].
    by injection Hres as <-.
  - case_bool_decide.
    + by apply (Hset (segm_resize (payload e) width height) e).
    + destruct (Np.iter (payload e)) as [cs|]; [|done]. simpl in Hres.
      destruct (mapM _ cs) as [rs|]; [|done]. simpl in Hres.
      by apply (Hset (Np.array rs) e).
  - by apply (Hset (segm_resize (payload e) width height) e).
Qed.

(** The dense branch under the contract of the resampling primitive. *)
Lemma resize_dense_ok (e : entry) (height width : Z) (H W C : nat) :
  dense_class (cls e) = true →
  Np.wf (payload e) → Np.shape (payload e) = [H; W; C] →
  0 < height → 0 < width →
  Contract.resample_ok C →
  ∃ e', resize e height width = Some e' ∧
        Np.wf (payload e') ∧
        Np.dtype_of (payload e') = Np.uint8 ∧
        Np.shape (payload e') = [Z.to_nat height; Z.to_nat width; C].
Proof.
  intros Hcls Hwf Hshape Hh Hw Hok.
  destruct (Hok (Np.astype_uint8 (payload e)) width height H W)
    as (im & im' & Him & Him' & Hwf' & Hdt & Hsh); try done.
  { unfold Np.wf, Np.astype_uint8. simpl. by rewrite length_fmap. }
  exists (set_payload (set_payload e (Np.astype_uint8 (payload e)))
            (np_array_of_image im')).
  split; [|done].
  assert (resize e height width = resize_dense e height width) as ->.
  { unfold resize. destruct (cls e) as [[]|]; done. }
  unfold resize_dense. cbn [payload set_payload].
  rewrite Him. simpl. by rewrite Him'.
Qed.

(** X5.  On a 2-d mask the branch of [SegmentationPrediction] and the
    branch of [SegmentationAnnotation] do the same: one call of
    [segm_resize] on the whole mask, whose result becomes the mask.  When
    [segm_resize] meets its contract the call does not raise and the new
    mask has shape (height, width). *)
Theorem resize_mask_2d (e : entry) (height width : Z) (H W : nat) :
  cls e = SegmentationPrediction ∨ cls e = SegmentationAnnotation →
  Np.shape (payload e) = [H; W] →
  resize e height width =
    (mask ← segm_resize (payload e) width height;
     Some (set_payload e mask)) ∧
  (Np.wf (payload e) → 0 < height → 0 < width → Contract.segm_resize_ok →
   ∃ mask, resize e height width = Some (set_payload e mask) ∧
           Np.shape mask = [Z.to_nat height; Z.to_nat width]).
Proof.
  intros Hcls Hshape.
  assert (resize e height width =
    (mask ← segm_resize (payload e) width height;
     Some (set_payload e mask))) as Heq.
  { unfold resize, resize_segmentation_prediction,
      resize_segmentation_annotation, Np.ndim.
    destruct Hcls as [-> | ->]; [|done]. by rewrite Hshape. }
  split; [done|]. intros Hwf Hh Hw Hok.
  destruct (Hok (payload e) width height H W) as (mask & Hm & _ & Hsh);
    try done.
  exists mask. by rewrite Heq, Hm.
Qed.

Lemma concat_blocks (n k : nat) (l : list Z) :
  length l = (n * k)%nat → concat (Np.blocks n k l) = l.
Proof.
  revert l. induction n as [|n IH]; intros l Hl; simpl.
  - symmetry. by apply nil_length_inv.
  - rewrite IH; [apply take_drop|]. rewrite length_drop. lia.
Qed.

Lemma promote_same (d : Np.dtype) (ds : list Np.dtype) :
  Forall (λ d', d' = d) ds → foldl Np.promote d ds = d.
Proof.
  induction 1 as [|d' ds -> _ IH]; simpl; [done|].
  replace (Np.promote d d) with d by (by destruct d). done.
Qed.

Lemma data_of_subarrays (d : Np.dtype) (s : list nat) (bs : list (list Z)) :
  Np.data <$> (Np.mk_ndarray d s <$> bs) = bs.
Proof. induction bs as [|b bs IH]; simpl; [done | by f_equal]. Qed.

(** Stacking the sub-arrays of an array gives the array back. *)
Lemma array_iter (a : Np.ndarray) (n : nat) (rest : list nat)
    (subs : list Np.ndarray) :
  Np.wf a → Np.shape a = n :: rest → (0 < n)%nat →
  Np.iter a = Some subs → Np.array subs = Some a.
Proof.
  destruct a as [d s l]. unfold Np.wf, Np.iter. simpl.
  intros Hwf -> Hn [= <-]. simpl in Hwf.
  destruct n as [|n]; [lia|]. cbn [Np.blocks fmap list_fmap Np.array].
  cbn [Np.shape Np.dtype_of].
  rewrite (proj2 (forallb_forall _ _)).
  2:{ intros b Hb%list_elem_of_In. apply bool_decide_eq_true_2.
      apply list_elem_of_fmap in Hb as (? & -> & _). done. }
  f_equal. f_equal.
  - apply promote_same. apply Forall_fmap, Forall_fmap, Forall_forall.
    by intros.
  - simpl. by rewrite length_fmap, blocks_length.
  - cbn [Np.data concat]. rewrite data_of_subarrays.
    rewrite concat_blocks; [apply take_drop|].
    rewrite length_drop. lia.
Qed.

(** X6.  Slicing and restacking lose nothing: when [segm_resize] returns
    every class channel of a multi-channel prediction as it is (as for a
    target that is the channels' own size), [resize] returns the entry as
    it is. *)
Theorem resize_prediction_round_trip (e : entry) (height width : Z)
    (n : nat) (rest : list nat) :
  cls e = SegmentationPrediction →
  Np.wf (payload e) → Np.shape (payload e) = n :: rest →
  (0 < n)%nat → length rest ≠ 1%nat →
  (∀ class_masks, Np.iter (payload e) = Some class_masks →
     Forall (λ class_mask, segm_resize class_mask width height
                           = Some class_mask) class_masks) →
  resize e height width = Some e.
Proof.
  intros Hcls Hwf Hshape Hn Hrank Hid.
  destruct (iter_slices _ _ _ Hwf Hshape) as (subs & Hiter & _ & _).
  specialize (Hid subs Hiter).
  unfold resize, resize_segmentation_prediction, Np.ndim.
  rewrite Hcls, Hshape, bool_decide_eq_false_2 by (simpl; lia).
  rewrite Hiter. simpl.
  assert (mapM (λ c, segm_resize c width height) subs = Some subs) as ->.
  { apply mapM_Some_2. clear -Hid.
    induction Hid; constructor; done. }
  simpl. rewrite (array_iter _ _ _ _ Hwf Hshape Hn Hiter). simpl.
  by destruct e.
Qed.

(** X7.  The dense branch sees a payload of an integer element type
    through its low eight bits only: two entries of one dense class whose
    payloads hold integers that agree modulo 256 are resized to the same
    entry, whichever integer types the two payloads have. *)
Theorem resize_dense_low_bits (e1 e2 : entry) (height width : Z) :
  dense_class (cls e1) = true →
  cls e2 = cls e1 → identifier e2 = identifier e1 →
  Np.integer_dtype (Np.dtype_of (payload e1)) = true →
  Np.integer_dtype (Np.dtype_of (payload e2)) = true →
  Np.shape (payload e2) = Np.shape (payload e1) →
  Forall2 (λ x y, x mod 256 = y mod 256)
    (Np.data (payload e1)) (Np.data (payload e2)) →
  resize e1 height width = resize e2 height width.
Proof.
  intros Hdense Hcls Hid Hint1 Hint2 Hshape Hdata.
  assert (resize e1 height width = resize_dense e1 height width) as ->.
  { unfold resize. destruct (cls e1) as [[]|]; done. }
  assert (resize e2 height width = resize_dense e2 height width) as ->.
  { unfold resize. rewrite Hcls. destruct (cls e1) as [[]|]; done. }
  assert (set_payload e1 (Np.astype_uint8 (payload e1)) =
          set_payload e2 (Np.astype_uint8 (payload e2))) as Heq.
  { unfold set_payload, Np.astype_uint8, Np.cast_uint8.
    rewrite Hcls, Hid, Hshape, Hint1, Hint2.
    do 2 f_equal. induction Hdata; simpl; [done|]. by f_equal. }
  unfold resize_dense. by rewrite Heq.
Qed.

End ResizeEdges.

(** ** More on [process_image] *)

Section ProcessImageEdges.

Context {lib : Collaborators}.
Variable self : Resize.

Lemma same_objects_refl (σ : store) : same_objects σ σ.
Proof. by intros r. Qed.

Lemma same_objects_trans (σ1 σ2 σ3 : store) :
  same_objects σ1 σ2 → same_objects σ2 σ3 → same_objects σ1 σ3.
Proof.
  intros H12 H23 r. destruct (H12 r) as [<- <-]. apply H23.
Qed.

Lemma resize_with_same_objects (src tgt : nat) (σ σ' : store) :
  resize_with self src tgt σ = Some σ' → same_objects σ σ'.
Proof.
  intros (es & et & height & width & et' & _ & Het & _ & Hrs & ->)
    %resize_with_inv r.
  destruct (resize_keeps_class _ _ _ _ Hrs) as [Hc Hi].
  destruct (decide (r = tgt)) as [-> | Hne].
  - rewrite lookup_insert_eq, Het. simpl. by rewrite Hc, Hi.
  - by rewrite lookup_insert_ne.
Qed.

Lemma for_each_same_objects {A} (body : A → store → option store)
    (l : list A) (σ σ' : store) :
  (∀ x σ1 σ2, body x σ1 = Some σ2 → same_objects σ1 σ2) →
  for_each body l σ = Some σ' → same_objects σ σ'.
Proof.
  intros Hbody. revert σ. induction l as [|x l IH]; intros σ; simpl.
  - intros [= <-]. apply same_objects_refl.
  - destruct (body x σ) as [σ1|] eqn:Hx; [simpl|done]. intros Hl.
    eapply same_objects_trans; [by eapply Hbody | by apply IH].
Qed.

Lemma prediction_pass_same_objects (annotations : list (option nat))
    (predictions : list nat) (σ σ' : store) :
  prediction_pass self annotations predictions σ = Some σ' →
  same_objects σ σ'.
Proof.
  unfold prediction_pass. case_bool_decide; apply for_each_same_objects.
  - intros [a p] σ1 σ2. apply resize_with_same_objects.
  - intros p σ1 σ2. apply resize_with_same_objects.
Qed.

Lemma annotation_pass_same_objects (annotations : list (option nat))
    (σ σ' : store) :
  annotation_pass self annotations σ = Some σ' → same_objects σ σ'.
Proof.
  apply for_each_same_objects. intros [r|] σ1 σ2; simpl.
  - apply resize_with_same_objects.
  - intros [= <-]. apply same_objects_refl.
Qed.

(** The annotation pass writes annotations only. *)
Lemma annotation_pass_frame (annotations : list (option nat))
    (σ σ' : store) (r : nat) :
  annotation_pass self annotations σ = Some σ' →
  Some r ∉ annotations → σ' !! r = σ !! r.
Proof.
  rewrite annotation_pass_present. intros Hrun Hr.
  apply (for_each_frame self id id _ _ _ _ Hrun).
  rewrite list_fmap_id. intros (x & Hx & Hid)%list_elem_of_omap.
  simpl in Hid. by subst x.
Qed.

(** What [process_image] is once the two gates are known. *)
Lemma process_image_inv (annotations : list (option nat))
    (predictions : list nat) (σ : store)
    (out : list (option nat) * list nat * store) :
  process_image self annotations predictions σ = Some out →
  ∃ σ1, (if applies self [PREDICTION; ALL]
         then prediction_pass self annotations predictions σ
         else Some σ) = Some σ1 ∧
        (if applies self [ANNOTATION; ALL]
         then annotation_pass self annotations σ1
         else Some σ1) = Some out.2 ∧
        out.1 = (annotations, predictions).
Proof.
  unfold process_image.
  destruct (if applies self [PREDICTION; ALL] then _ else _) as [σ1|];
    [simpl|done].
  destruct (if applies self [ANNOTATION; ALL] then _ else _) as [σ2|] eqn:H2;
    [simpl|done].
  intros [= <-]. exists σ1. by rewrite H2.
Qed.

(** X8.  [process_image] writes nothing but the objects of a collection
    whose gate is open: an object that is not a prediction when the
    prediction gate is open, and not an annotation when the annotation gate
    is open, is after the call what it was before. *)
Theorem process_image_frame (annotations : list (option nat))
    (predictions : list nat) (σ : store)
    (out : list (option nat) * list nat * store) (r : nat) :
  process_image self annotations predictions σ = Some out →
  (applies self [PREDICTION; ALL] = true → r ∉ predictions) →
  (applies self [ANNOTATION; ALL] = true → Some r ∉ annotations) →
  out.2 !! r = σ !! r.
Proof.
  intros (σ1 & H1 & H2 & _)%process_image_inv Hp Ha.
  assert (σ1 !! r = σ !! r) as <-.
  { destruct (applies self [PREDICTION; ALL]); [|by injection H1 as <-].
    eapply prediction_pass_frame; [exact H1 | by apply Hp]. }
  destruct (applies self [ANNOTATION; ALL]); [|by injection H2 as <-].
  eapply annotation_pass_frame; [exact H2 | by apply Ha].
Qed.

(** X9.  [process_image] hands back the two collections it was given,
    and the store holds the same objects after the call as before: no
    object appears or disappears, and none changes its class or its
    identifier. *)
Theorem process_image_same_objects (annotations : list (option nat))
    (predictions : list nat) (σ : store)
    (out : list (option nat) * list nat * store) :
  process_image self annotations predictions σ = Some out →
  out.1 = (annotations, predictions) ∧
  same_objects σ out.2 ∧
  dom out.2 = dom σ.
Proof.
  intros (σ1 & H1 & H2 & Hout)%process_image_inv.
  assert (same_objects σ out.2) as Hsame.
  { apply (same_objects_trans _ σ1).
    - destruct (applies self [PREDICTION; ALL]).
      + by eapply prediction_pass_same_objects.
      + injection H1 as <-. apply same_objects_refl.
    - destruct (applies self [ANNOTATION; ALL]).
      + by eapply annotation_pass_same_objects.
      + injection H2 as <-. apply same_objects_refl. }
  split; [done|]. split; [done|].
  apply set_eq. intros r. rewrite !elem_of_dom.
  destruct (Hsame r) as [Hc _].
  destruct (out.2 !! r), (σ !! r); simpl in Hc; try done;
    split; intros [? ?]; done.
Qed.

(** With nothing but [None] among at least as many annotations as there
    are predictions, the zipped loop is the loop over the predictions. *)
Lemma paired_loop_all_none (annotations : list (option nat))
    (predictions : list nat) (σ : store) :
  Forall (λ a, a = None) annotations →
  (length predictions ≤ length annotations)%nat →
  for_each (paired_body self) (zip annotations predictions) σ =
    for_each (single_body self) predictions σ.
Proof.
  intros Hnone. revert predictions σ.
  induction Hnone as [|a annotations -> _ IH]; intros [|p predictions] σ Hlen;
    simpl in *; try done; try lia.
  change (paired_body self (None, p) σ) with (single_body self p σ).
  destruct (single_body self p σ) as [σ1|]; simpl; [|done].
  apply IH. lia.
Qed.

(** X10.  A collection of [None] annotations at least as long as the
    predictions makes the prediction pass do what it does with no
    annotations at all: every prediction is resolved from itself and
    resized. *)
Theorem prediction_pass_all_none (annotations : list (option nat))
    (predictions : list nat) (σ : store) :
  Forall (λ a, a = None) annotations →
  (length predictions ≤ length annotations)%nat →
  prediction_pass self annotations predictions σ =
    prediction_pass self [] predictions σ.
Proof.
  intros Hnone Hlen. unfold prediction_pass at 1. case_bool_decide.
  - by rewrite paired_loop_all_none.
  - by subst annotations.
Qed.

(** X11.  The zipped loop stops at the shorter collection.  Annotations
    past the last prediction never matter; predictions past the last
    annotation are left out as soon as there is one annotation, whereas
    with no annotation every prediction is processed. *)
Theorem prediction_pass_truncates (annotations : list (option nat))
    (predictions : list nat) (σ : store) :
  prediction_pass self annotations predictions σ =
    prediction_pass self (take (length predictions) annotations)
      predictions σ ∧
  (annotations ≠ [] →
   prediction_pass self annotations predictions σ =
     prediction_pass self annotations
       (take (length annotations) predictions) σ).
Proof.
  split.
  - destruct annotations as [|a annotations]; [by rewrite take_nil|].
    destruct predictions as [|p predictions]; [done|].
    unfold prediction_pass.
    rewrite (bool_decide_eq_true_2 (a :: annotations ≠ [])) by done.
    rewrite (bool_decide_eq_true_2 (take _ (a :: annotations) ≠ []))
      by done.
    by rewrite zip_with_take_l.
  - intros Hne. unfold prediction_pass.
    rewrite !bool_decide_eq_true_2 by done.
    by rewrite zip_with_take_r.
Qed.

End ProcessImageEdges.

(** ** Super-resolution entries with nothing configured *)

Section SuperResolution.

Context {lib : Collaborators}.
Variable self : Resize.

Hypothesis no_height : dst_height self = None.
Hypothesis no_width : dst_width self = None.

Lemma set_sizes_own_shape (e : entry) (H W : nat) (rest : list nat) :
  cls e = SuperResolutionAnnotation ∨ cls e = SuperResolutionPrediction →
  Np.shape (payload e) = H :: W :: rest →
  set_sizes self e = Some (Z.of_nat H, Z.of_nat W).
Proof.
  intros Hcls Hshape.
  unfold set_sizes, set_sizes_super_resolution, Np.shape_at.
  rewrite no_height, no_width, Hshape. by destruct Hcls as [-> | ->].
Qed.

Lemma resize_with_super_resolution (src tgt : nat) (es et : entry)
    (σ : store) (H W Cs Ht Wt C : nat) :
  σ !! src = Some es → σ !! tgt = Some et →
  cls es = SuperResolutionAnnotation ∨ cls es = SuperResolutionPrediction →
  Np.shape (payload es) = [H; W; Cs] →
  dense_class (cls et) = true →
  Np.wf (payload et) → Np.shape (payload et) = [Ht; Wt; C] →
  (0 < H)%nat → (0 < W)%nat →
  Contract.resample_ok C →
  ∃ et', resize_with self src tgt σ = Some (<[tgt := et']> σ) ∧
         cls et' = cls et ∧
         Np.wf (payload et') ∧
         Np.dtype_of (payload et') = Np.uint8 ∧
         Np.shape (payload et') = [H; W; C].
Proof.
  intros Hsrc Htgt Hcls Hshape Hdense Hwf Hsh HH HW Hok.
  destruct (resize_dense_ok et (Z.of_nat H) (Z.of_nat W) Ht Wt C)
    as (et' & Hrs & Hwf' & Hdt & Hsh'); try done; try lia.
  exists et'. rewrite !Nat2Z.id in Hsh'. split; [|split; [|done]].
  - unfold resize_with, set_sizes_at, resize_at. rewrite Hsrc. simpl.
    rewrite (set_sizes_own_shape es H W [Cs] Hcls Hshape). simpl.
    rewrite Htgt. simpl. by rewrite Hrs.
  - by destruct (resize_keeps_class _ _ _ _ Hrs).
Qed.

(** X12.  With no size configured and both collections processed, a
    super-resolution prediction zipped with a super-resolution annotation
    is brought to the height and width of the annotation, which keeps its
    own: when the resampling primitive meets its contract the call does not
    raise, and afterwards the two payloads have the same height and
    width. *)
Theorem super_resolution_pair (a p : nat) (ea ep : entry) (σ : store)
    (Ha Wa Ca Hp Wp Cp : nat) :
  apply_to self = None ∨ apply_to self = Some ALL →
  a ≠ p → σ !! a = Some ea → σ !! p = Some ep →
  cls ea = SuperResolutionAnnotation → cls ep = SuperResolutionPrediction →
  Np.wf (payload ea) → Np.shape (payload ea) = [Ha; Wa; Ca] →
  Np.wf (payload ep) → Np.shape (payload ep) = [Hp; Wp; Cp] →
  (0 < Ha)%nat → (0 < Wa)%nat →
  Contract.resample_ok Ca → Contract.resample_ok Cp →
  ∃ out ea' ep',
    process_image self [Some a] [p] σ = Some out ∧
    out.2 !! a = Some ea' ∧ out.2 !! p = Some ep' ∧
    Np.shape (payload ea') = [Ha; Wa; Ca] ∧
    Np.shape (payload ep') = [Ha; Wa; Cp].
Proof.
  intros Hto Hne Hea Hep Hca Hcp Hwa Hsa Hwp Hsp HH HW Hoka Hokp.
  destruct (resize_with_super_resolution a p ea ep σ Ha Wa Ca Hp Wp Cp)
    as (ep' & Hstep1 & _ & _ & _ & Hshp); try done; [by left | by rewrite Hcp|].
  set (σ1 := <[p := ep']> σ) in *.
  assert (σ1 !! a = Some ea) as Hea1 by (by unfold σ1; rewrite lookup_insert_ne).
  destruct (resize_with_super_resolution a a ea ea σ1 Ha Wa Ca Ha Wa Ca)
    as (ea' & Hstep2 & _ & _ & _ & Hsha); try done; [by left | by rewrite Hca|].
  exists ([Some a], [p], <[a := ea']> σ1), ea', ep'.
  split; [|split; [|split; [|done]]].
  - unfold process_image, applies.
    assert (prediction_pass self [Some a] [p] σ = Some σ1) as Hpass.
    { unfold prediction_pass. simpl. unfold paired_body. simpl.
      by rewrite Hstep1. }
    assert (annotation_pass self [Some a] σ1 = Some (<[a := ea']> σ1))
      as Hann.
    { unfold annotation_pass. simpl. by rewrite Hstep2. }
    destruct Hto as [-> | ->]; simpl; rewrite Hpass; simpl; by rewrite Hann.
  - simpl. apply lookup_insert_eq.
  - simpl. unfold σ1. rewrite lookup_insert_ne by done. apply lookup_insert_eq.
Qed.

(** X13.  With no size configured a super-resolution entry resolved from
    itself keeps its shape, but it is not left alone: its payload still
    goes through the cast and the resampling primitive and comes back as
    8-bit samples. *)
Theorem super_resolution_keeps_shape (r : nat) (e : entry) (σ : store)
    (H W C : nat) :
  σ !! r = Some e →
  cls e = SuperResolutionAnnotation ∨ cls e = SuperResolutionPrediction →
  Np.wf (payload e) → Np.shape (payload e) = [H; W; C] →
  (0 < H)%nat → (0 < W)%nat →
  Contract.resample_ok C →
  ∃ e', resize_with self r r σ = Some (<[r := e']> σ) ∧
        resize e (Z.of_nat H) (Z.of_nat W) = Some e' ∧
        Np.shape (payload e') = Np.shape (payload e) ∧
        Np.dtype_of (payload e') = Np.uint8.
Proof.
  intros Hr Hcls Hwf Hshape HH HW Hok.
  destruct (resize_with_super_resolution r r e e σ H W C H W C)
    as (e' & Hstep & _ & _ & Hdt & Hsh); try done.
  { by destruct Hcls as [-> | ->]. }
  exists e'. split; [done|]. split; [|by rewrite Hsh, Hshape].
  unfold resize_with, set_sizes_at, resize_at in Hstep.
  rewrite Hr in Hstep. simpl in Hstep.
  rewrite (set_sizes_own_shape e H W [C] Hcls Hshape) in Hstep.
  simpl in Hstep. destruct (resize e (Z.of_nat H) (Z.of_nat W)) as [e''|];
    [|done].
  simpl in Hstep. injection Hstep as Heq.
  f_equal. apply (f_equal (λ m : store, m !! r)) in Heq.
  rewrite !lookup_insert_eq in Heq. by injection Heq.
Qed.

End SuperResolution.

(** ** Degenerate masks and whole passes *)

Section Totality.

Context {lib : Collaborators}.
Variable self : Resize.

(** X14.  A segmentation prediction whose mask has shape (0, H, W) is
    resized without any call of [segm_resize] and without raising, to the
    mask [np.array([])]: an empty array of one axis, for every target
    size. *)
Theorem resize_prediction_empty_stack (e : entry) (height width : Z)
    (H W : nat) :
  cls e = SegmentationPrediction → Np.shape (payload e) = [0%nat; H; W] →
  resize e height width =
    Some (set_payload e (Np.mk_ndarray Np.float64 [0%nat] [])).
Proof.
  intros Hcls Hshape.
  unfold resize, resize_segmentation_prediction, Np.ndim, Np.iter.
  by rewrite Hcls, Hshape.
Qed.

Lemma resize_with_annotation_2d (r : nat) (e : entry) (σ : store)
    (height width : Z) (H W : nat) :
  set_sizes_default self = Some (height, width) →
  0 < height → 0 < width → Contract.segm_resize_ok →
  σ !! r = Some e → cls e = SegmentationAnnotation →
  Np.wf (payload e) → Np.shape (payload e) = [H; W] →
  ∃ e', resize_with self r r σ = Some (<[r := e']> σ) ∧
        cls e' = SegmentationAnnotation ∧ Np.wf (payload e') ∧
        Np.shape (payload e') = [Z.to_nat height; Z.to_nat width].
Proof.
  intros Hsz Hh Hw Hok Hr Hcls Hwf Hshape.
  destruct (Hok (payload e) width height H W) as (mask & Hm & Hwf' & Hsh);
    try done.
  exists (set_payload e mask). split; [|by repeat split].
  unfold resize_with, set_sizes_at, resize_at. rewrite Hr. simpl.
  unfold set_sizes. rewrite Hcls, Hsz. simpl.
  unfold resize, resize_segmentation_annotation. by rewrite Hcls, Hm.
Qed.

(** X15.  The annotation pass over 2-d segmentation annotations is total
    and reaches the resolved size: when the default rule resolves to a
    positive (height, width) and [segm_resize] meets its contract, the pass
    does not raise, whatever [None] entries and repeated objects the
    collection holds, and afterwards every annotation of the collection has
    a mask of shape (height, width). *)
Theorem annotation_pass_segmentation (annotations : list (option nat))
    (σ : store) (height width : Z) :
  set_sizes_default self = Some (height, width) →
  0 < height → 0 < width → Contract.segm_resize_ok →
  (∀ r, Some r ∈ annotations →
     ∃ e H W, σ !! r = Some e ∧ cls e = SegmentationAnnotation ∧
              Np.wf (payload e) ∧ Np.shape (payload e) = [H; W]) →
  ∃ σ', annotation_pass self annotations σ = Some σ' ∧
        ∀ r, Some r ∈ annotations →
          ∃ e', σ' !! r = Some e' ∧ cls e' = SegmentationAnnotation ∧
                Np.shape (payload e') = [Z.to_nat height; Z.to_nat width].
Proof.
  intros Hsz Hh Hw Hok. revert σ.
  induction annotations as [|[r0|] l IH]; intros σ Hall.
  - exists σ. split; [done|]. by intros r Hr%elem_of_nil.
  - destruct (Hall r0) as (e0 & H0 & W0 & Hr0 & Hc0 & Hwf0 & Hs0);
      [by left|].
    destruct (resize_with_annotation_2d r0 e0 σ height width H0 W0)
      as (e0' & Hstep & Hc0' & Hwf0' & Hs0'); try done.
    destruct (IH (<[r0 := e0']> σ)) as (σ' & Hrun & Hfinal).
    { intros r Hr. destruct (decide (r = r0)) as [-> | Hne].
      - exists e0', (Z.to_nat height), (Z.to_nat width).
        by rewrite lookup_insert_eq.
      - destruct (Hall r) as (e & H & W & ? & ? & ? & ?); [by right|].
        exists e, H, W. by rewrite lookup_insert_ne. }
    exists σ'. split.
    + unfold annotation_pass in *. simpl. by rewrite Hstep.
    + intros r [[= ->] | Hr]%elem_of_cons; [|by apply Hfinal].
      destruct (decide (Some r0 ∈ l)) as [Hin | Hout]; [by apply Hfinal|].
      exists e0'. split; [|done].
      rewrite (annotation_pass_frame self l _ σ' r0 Hrun Hout).
      apply lookup_insert_eq.
  - destruct (IH σ) as (σ' & Hrun & Hfinal).
    { intros r Hr. apply Hall. by right. }
    exists σ'. split; [done|].
    intros r [[=] | Hr]%elem_of_cons. by apply Hfinal.
Qed.

(** A loop that resolves every object from itself is total as soon as one
    step is, on objects that satisfy a condition the step preserves; what
    the step establishes then holds of every object of the loop. *)
Lemma self_loop_total (Pre Post : entry → Prop) (l : list nat) (σ : store) :
  (∀ r e σ0, σ0 !! r = Some e → Pre e →
     ∃ e', resize_with self r r σ0 = Some (<[r := e']> σ0) ∧
           Pre e' ∧ Post e') →
  (∀ r, r ∈ l → ∃ e, σ !! r = Some e ∧ Pre e) →
  ∃ σ', for_each (single_body self) l σ = Some σ' ∧
        ∀ r, r ∈ l → ∃ e', σ' !! r = Some e' ∧ Post e'.
Proof.
  intros Hstep. revert σ. induction l as [|r0 l IH]; intros σ Hall.
  { exists σ. split; [done|]. by intros r Hr%elem_of_nil. }
  destruct (Hall r0) as (e0 & Hr0 & Hpre0); [by left|].
  destruct (Hstep r0 e0 σ Hr0 Hpre0) as (e0' & Hrun0 & Hpre0' & Hpost0).
  destruct (IH (<[r0 := e0']> σ)) as (σ' & Hrun & Hfinal).
  { intros r Hr. destruct (decide (r = r0)) as [-> | Hne].
    - exists e0'. by rewrite lookup_insert_eq.
    - destruct (Hall r) as (e & ? & ?); [by right|].
      exists e. by rewrite lookup_insert_ne. }
  exists σ'. split.
  - cbn [for_each].
    change (single_body self r0 σ) with (resize_with self r0 r0 σ).
    by rewrite Hrun0.
  - intros r [-> | Hr]%elem_of_cons; [|by apply Hfinal].
    destruct (decide (r0 ∈ l)) as [Hin | Hout]; [by apply Hfinal|].
    exists e0'. split; [|done].
    rewrite (for_each_frame self id id l _ σ' r0 Hrun)
      by (by rewrite list_fmap_id).
    apply lookup_insert_eq.
Qed.

(** X16.  With both sizes configured and no annotations, the prediction
    pass over dense-value predictions of [C] channels is total and reaches
    the configured size: when the resampling primitive meets its contract
    the pass does not raise, [image_size] is never consulted, and
    afterwards every prediction holds 8-bit samples of shape
    ([dst_height], [dst_width], [C]), whatever its shape was. *)
Theorem prediction_pass_dense (predictions : list nat) (σ : store)
    (height width : Z) (C : nat) :
  dst_height self = Some height → dst_width self = Some width →
  0 < height → 0 < width → Contract.resample_ok C →
  (∀ p, p ∈ predictions →
     ∃ e H W, σ !! p = Some e ∧ dense_class (cls e) = true ∧
              Np.wf (payload e) ∧ Np.shape (payload e) = [H; W; C]) →
  ∃ σ', prediction_pass self [] predictions σ = Some σ' ∧
        ∀ p, p ∈ predictions →
          ∃ e', σ' !! p = Some e' ∧
                Np.dtype_of (payload e') = Np.uint8 ∧
                Np.shape (payload e') =
                  [Z.to_nat height; Z.to_nat width; C].
Proof.
  intros Hdh Hdw Hh Hw Hok Hall.
  apply (self_loop_total
           (λ e, dense_class (cls e) = true ∧ Np.wf (payload e) ∧
                 ∃ H W, Np.shape (payload e) = [H; W; C])
           (λ e, Np.dtype_of (payload e) = Np.uint8 ∧
                 Np.shape (payload e) =
                   [Z.to_nat height; Z.to_nat width; C])).
  - intros r e σ0 Hr (Hdense & Hwf & H & W & Hshape).
    destruct (resize_dense_ok e height width H W C)
      as (e' & Hrs & Hwf' & Hdt & Hsh); try done.
    destruct (resize_keeps_class _ _ _ _ Hrs) as [Hc _].
    exists e'. split; [|split; [|done]].
    + unfold resize_with, set_sizes_at, resize_at. rewrite Hr. simpl.
      assert (set_sizes self e = Some (height, width)) as ->.
      { unfold set_sizes, set_sizes_default, set_sizes_super_resolution,
          if_else, truthy.
        rewrite Hdh, Hdw.
        destruct (Z.eqb_spec height 0), (Z.eqb_spec width 0); try lia.
        destruct (cls e) as [[]|]; done. }
      simpl. by rewrite Hrs.
    + rewrite Hc. split; [done|]. split; [done|]. eauto.
  - intros p Hp. destruct (Hall p Hp) as (e & H & W & ? & ? & ? & ?).
    exists e. split; [done|]. repeat split; eauto.
Qed.

End Totality.

(** ** The further properties at concrete objects *)

Lemma set_sizes_default_raises_witness :
  set_sizes Pairing.no_fallback Scenario.seg_annotation = None.
Proof.
  apply (set_sizes_default_raises Pairing.no_fallback Scenario.seg_annotation
           eq_refl).
  left. split; reflexivity.
Defined.

Lemma set_sizes_deprocess_raises_witness :
  set_sizes Pairing.deprocess_short Scenario.seg_prediction = None.
Proof.
  apply (proj1 (set_sizes_deprocess_raises Pairing.deprocess_short
                  Scenario.seg_prediction eq_refl eq_refl)).
  simpl. lia.
Defined.

Lemma parameters_sizes_witness :
  parameters Pairing.base_parameters !! "apply_to" =
    Some (Inherited "StringField") ∧
  ∃ f, parameters Pairing.base_parameters !! "size" = Some (Number f) ∧
       min_value f = Some 1.
Proof.
  split.
  - rewrite (proj1 (parameters_sizes Pairing.base_parameters "apply_to")).
    + reflexivity.
    + unfold size_names. rewrite !not_elem_of_cons.
      repeat split; try discriminate. apply not_elem_of_nil.
  - destruct (proj2 (parameters_sizes Pairing.base_parameters "size"))
      as (f & Hf & _ & _ & Hmin & _).
    + unfold size_names. rewrite !elem_of_cons. tauto.
    + exists f. split; [exact Hf | exact Hmin].
Defined.

Lemma resize_mask_2d_witness :
  Np.shape <$> (payload <$> resize_nearest Scenario.seg_annotation 3 5) =
    Some [3; 5]%nat.
Proof.
  destruct (proj2 (resize_mask_2d (lib := Nearest.collaborators)
                     Scenario.seg_annotation 3 5 2 2
                     (or_intror eq_refl) eq_refl))
    as (mask & Hres & Hshape).
  - reflexivity.
  - lia.
  - lia.
  - apply nearest_segm_resize_ok.
  - unfold resize_nearest. rewrite Hres. exact (f_equal Some Hshape).
Defined.

Lemma resize_prediction_round_trip_witness :
  resize_nearest Scenario.seg_scores_prediction 1 1 =
    Some Scenario.seg_scores_prediction.
Proof.
  apply (resize_prediction_round_trip (lib := Nearest.collaborators)
           Scenario.seg_scores_prediction 1 1 2 [1; 1]%nat).
  - reflexivity.
  - reflexivity.
  - reflexivity.
  - lia.
  - simpl. lia.
  - intros class_masks Hiter. vm_compute in Hiter. injection Hiter as <-.
    repeat constructor.
Defined.

Lemma resize_dense_low_bits_witness :
  resize_nearest Scenario.style_prediction 2 2 =
    resize_nearest Pairing.style_prediction_cast 2 2.
Proof.
  apply (resize_dense_low_bits (lib := Nearest.collaborators)
           Scenario.style_prediction Pairing.style_prediction_cast 2 2).
  - reflexivity.
  - reflexivity.
  - reflexivity.
  - reflexivity.
  - reflexivity.
  - reflexivity.
  - repeat constructor.
Defined.

Lemma process_image_frame_witness :
  ∃ out, process_image_nearest Scenario.height_only [Some 1%nat] [2%nat]
           Scenario.seg_pair = Some out ∧
         out.2 !! 2%nat = Some Scenario.seg_prediction.
Proof.
  destruct (process_image_nearest Scenario.height_only [Some 1%nat] [2%nat]
              Scenario.seg_pair) as [out|] eqn:Hrun;
    [|vm_compute in Hrun; discriminate].
  exists out. split; [reflexivity|].
  refine (process_image_frame (lib := Nearest.collaborators)
            Scenario.height_only [Some 1%nat] [2%nat] Scenario.seg_pair out
            2%nat Hrun _ _).
  - intros Hgate. vm_compute in Hgate. discriminate.
  - intros _ Hin. apply list_elem_of_singleton in Hin. discriminate.
Defined.

Lemma process_image_same_objects_witness :
  ∃ out, process_image_nearest Scenario.deprocess_64 [Some 1%nat] [2%nat]
           Scenario.seg_pair = Some out ∧
         dom out.2 = dom Scenario.seg_pair.
Proof.
  destruct (process_image_nearest Scenario.deprocess_64 [Some 1%nat] [2%nat]
              Scenario.seg_pair) as [out|] eqn:Hrun;
    [|vm_compute in Hrun; discriminate].
  exists out. split; [reflexivity|].
  exact (proj2 (proj2 (process_image_same_objects
                         (lib := Nearest.collaborators) Scenario.deprocess_64
                         [Some 1%nat] [2%nat] Scenario.seg_pair out Hrun))).
Defined.

Lemma prediction_pass_all_none_witness :
  prediction_pass (lib := Nearest.collaborators) Scenario.height_only
    [None; None] [2%nat] Scenario.seg_pair =
  prediction_pass (lib := Nearest.collaborators) Scenario.height_only
    [] [2%nat] Scenario.seg_pair.
Proof.
  apply (prediction_pass_all_none (lib := Nearest.collaborators)).
  - repeat constructor.
  - simpl. lia.
Defined.

Lemma prediction_pass_truncates_witness :
  prediction_pass (lib := Nearest.collaborators) Scenario.height_only
    [Some 1%nat] [2%nat; 3%nat] Scenario.seg_pair =
  prediction_pass (lib := Nearest.collaborators) Scenario.height_only
    [Some 1%nat] [2%nat] Scenario.seg_pair.
Proof.
  apply (proj2 (prediction_pass_truncates (lib := Nearest.collaborators)
                  Scenario.height_only [Some 1%nat] [2%nat; 3%nat]
                  Scenario.seg_pair)).
  discriminate.
Defined.

Lemma super_resolution_pair_witness :
  ∃ out ea' ep',
    process_image_nearest Pairing.both [Some 1%nat] [2%nat] Pairing.sr_pair
      = Some out ∧
    out.2 !! 1%nat = Some ea' ∧ out.2 !! 2%nat = Some ep' ∧
    Np.shape (payload ea') = [2; 1; 3]%nat ∧
    Np.shape (payload ep') = [2; 1; 3]%nat.
Proof.
  apply (super_resolution_pair (lib := Nearest.collaborators) Pairing.both
           eq_refl eq_refl 1%nat 2%nat Pairing.sr_annotation
           Scenario.sr_prediction Pairing.sr_pair 2 1 3 1 2 3).
  - right. reflexivity.
  - discriminate.
  - reflexivity.
  - reflexivity.
  - reflexivity.
  - reflexivity.
  - reflexivity.
  - reflexivity.
  - reflexivity.
  - reflexivity.
  - lia.
  - lia.
  - apply nearest_resample_ok.
  - apply nearest_resample_ok.
Defined.

Lemma super_resolution_keeps_shape_witness :
  ∃ e', resize_with (lib := Nearest.collaborators) Scenario.bare 2%nat 2%nat
          Pairing.sr_pair = Some (<[2%nat := e']> Pairing.sr_pair) ∧
        Np.shape (payload e') = [1; 2; 3]%nat ∧
        Np.dtype_of (payload e') = Np.uint8.
Proof.
  destruct (super_resolution_keeps_shape (lib := Nearest.collaborators)
              Scenario.bare eq_refl eq_refl 2%nat Scenario.sr_prediction
              Pairing.sr_pair 1 2 3)
    as (e' & Hstep & _ & Hshape & Hdt).
  - reflexivity.
  - right. reflexivity.
  - reflexivity.
  - reflexivity.
  - lia.
  - lia.
  - apply nearest_resample_ok.
  - exists e'. split; [exact Hstep|]. split; [exact Hshape | exact Hdt].
Defined.

Lemma resize_prediction_empty_stack_witness :
  Np.shape <$>
    (payload <$> resize_nearest Pairing.no_channel_prediction 5 7) =
    Some [0%nat].
Proof.
  unfold resize_nearest.
  rewrite (resize_prediction_empty_stack (lib := Nearest.collaborators)
             Pairing.no_channel_prediction 5 7 2 2 eq_refl eq_refl).
  reflexivity.
Defined.

Lemma annotation_pass_segmentation_witness :
  ∃ σ', annotation_pass (lib := Nearest.collaborators) Scenario.height_only
          [None; Some 1%nat; Some 1%nat] Scenario.seg_pair = Some σ' ∧
        ∃ e', σ' !! 1%nat = Some e' ∧
              Np.shape (payload e') = [3; 4]%nat.
Proof.
  destruct (annotation_pass_segmentation (lib := Nearest.collaborators)
              Scenario.height_only [None; Some 1%nat; Some 1%nat]
              Scenario.seg_pair 3 4) as (σ' & Hrun & Hfinal).
  - reflexivity.
  - lia.
  - lia.
  - apply nearest_segm_resize_ok.
  - intros r Hr. apply elem_of_cons in Hr as [Hr | Hr]; [discriminate|].
    assert (r = 1%nat) as ->.
    { apply elem_of_cons in Hr as [Hr | Hr]; [by injection Hr|].
      apply list_elem_of_singleton in Hr. by injection Hr. }
    exists Scenario.seg_annotation, 2%nat, 2%nat. repeat split.
  - exists σ'. split; [exact Hrun|].
    destruct (Hfinal 1%nat) as (e' & He' & _ & Hshape).
    + apply elem_of_cons. right. apply elem_of_cons. left. reflexivity.
    + exists e'. split; [exact He' | exact Hshape].
Defined.

Lemma prediction_pass_dense_witness :
  ∃ σ', prediction_pass (lib := Nearest.collaborators) Pairing.fixed_3x2 []
          [4%nat; 5%nat] Pairing.dense_pair = Some σ' ∧
        ∃ e', σ' !! 5%nat = Some e' ∧
              Np.shape (payload e') = [3; 2; 3]%nat.
Proof.
  destruct (prediction_pass_dense (lib := Nearest.collaborators)
              Pairing.fixed_3x2 [4%nat; 5%nat] Pairing.dense_pair 3 2 3)
    as (σ' & Hrun & Hfinal).
  - reflexivity.
  - reflexivity.
  - lia.
  - lia.
  - apply nearest_resample_ok.
  - intros p Hp. apply elem_of_cons in Hp as [-> | Hp].
    + exists Scenario.style_prediction, 1%nat, 2%nat. repeat split.
    + apply list_elem_of_singleton in Hp as ->.
      exists Scenario.sr_prediction, 1%nat, 2%nat. repeat split.
  - exists σ'. split; [exact Hrun|].
    destruct (Hfinal 5%nat) as (e' & He' & _ & Hshape).
    + apply elem_of_cons. right. apply list_elem_of_singleton. reflexivity.
    + exists e'. split; [exact He' | exact Hshape].
Defined.

(** An annotation of a class derived from [SegmentationAnnotation] is
    resized like a segmentation annotation, and sized by the undecorated
    rule. *)
Lemma derived_annotation_is_resized :
  registered (cls Pairing.brain_tumor_annotation) = true ∧
  set_sizes Scenario.height_only Pairing.brain_tumor_annotation =
    Some (3, 4) ∧
  Np.shape <$>
    (payload <$> resize_nearest Pairing.brain_tumor_annotation 7 9) =
    Some [7; 9]%nat ∧
  cls <$> resize_nearest Pairing.brain_tumor_annotation 7 9 =
    Some (cls Pairing.brain_tumor_annotation).
Proof. vm_compute. repeat split. Qed.
